(** * eztimer: a shallow embedding of [eztimer::time] and its properties

    The development follows [include/eztimer/eztimer.hpp].  Durations are
    [std::chrono::duration<double>]: IEEE-754 binary64 values, modelled with
    the executable specification of floating-point arithmetic of the
    standard library ([spec_float], precision 53, maximal exponent 1024).
    The candidates, the validation callback and the steady clock are effects
    on an external world; every such effect is also written to an event log
    so that statements such as "the candidate is not invoked" can be made. *)

From Stdlib Require Import ZArith Bool Lia.
From Stdlib Require Import Floats.SpecFloat.
From stdpp Require Import base list.

Local Open Scope Z_scope.

(* ===================================================================== *)
(** * Part I: definitions                                                 *)
(* ===================================================================== *)

(** ** binary64 arithmetic, as used through [std::chrono::duration<double>] *)

Module F64.
Definition prec : Z := 53.
Definition emax : Z := 1024.

Definition zero : spec_float := S754_zero false.
Definition add : spec_float -> spec_float -> spec_float := SFadd prec emax.
Definition sub : spec_float -> spec_float -> spec_float := SFsub prec emax.
Definition mul : spec_float -> spec_float -> spec_float := SFmul prec emax.
Definition div : spec_float -> spec_float -> spec_float := SFdiv prec emax.
Definition ltb : spec_float -> spec_float -> bool := SFltb.
Definition sqrt : spec_float -> spec_float := SFsqrt prec emax.

(** Conversion of an integer to [double] (round to nearest, ties to even). *)
Definition of_Z (z : Z) : spec_float := binary_normalize prec emax z 0 false.

(** [std::isfinite]. *)
Definition is_finite (x : spec_float) : bool :=
  match x with
  | S754_zero _ | S754_finite _ _ _ => true
  | S754_infinity _ | S754_nan => false
  end.

End F64.

(** A duration in seconds, [std::chrono::duration<double>]. *)
Abbreviation duration := spec_float (only parsing).

(** [operator>=] on durations is specified (and implemented) as [!(lhs < rhs)]. *)
Definition duration_ge (a b : duration) : bool := negb (F64.ltb a b).

(** ** Machine integers *)

Definition INT_MAX : Z := 2147483647.
Definition INT_MIN : Z := -2147483648.
Definition SIZE_MODULUS : Z := 2 ^ 64.

Definition in_int (z : Z) : bool := (INT_MIN <=? z) && (z <=? INT_MAX).

(** Signed addition on [int]: overflow has no defined result. *)
Definition int_add (a b : Z) : option Z :=
  if in_int (a + b) then Some (a + b) else None.

(** Unsigned subtraction on [std::size_t] wraps around. *)
Definition size_sub (a b : Z) : Z := (a - b) mod SIZE_MODULUS.

(** The conversion [std::size_t] to [double] done by [duration::operator/=]. *)
Definition size_to_double (n : Z) : duration := F64.of_Z n.

(** ** The data model: [struct Options] and [struct Timings] *)

Record Options := mkOptions {
  iterations : Z;
  burn_in : Z;
  seed : Z;
  max_time_per_function : option duration;
  max_time_total : option duration
}.

Definition default_options : Options :=
  {| iterations := 10; burn_in := 1; seed := 123456;
     max_time_per_function := None; max_time_total := None |}.

Record Timings := mkTimings {
  times : list duration;
  mean : duration;
  sd : duration
}.

(** A default-constructed [Timings]. *)
Definition empty_timings : Timings :=
  {| times := []; mean := F64.zero; sd := F64.zero |}.

(** ** Effects: events, the environment and the monad *)

Section Effects.
Context {World Result TimePoint Exn : Type}.

(** What the outside can observe of a run.  [EvCheck r f x] records a call
    [check(r, f)]; [x] is the exception it threw, if any. *)
Inductive Event :=
| EvNow (t : TimePoint)
| EvCall (f : nat) (r : Result)
| EvCheck (r : Result) (f : nat) (x : option Exn).

(** The external state; the log has the newest event first. *)
Record Env := mkEnv { world : World; log : list Event }.

Inductive outcome (A : Type) :=
| Done (a : A) (s : Env)
| Thrown (e : Exn) (s : Env)
| Undefined.
Global Arguments Done {A} a s.
Global Arguments Thrown {A} e s.
Global Arguments Undefined {A}.

Definition M (A : Type) : Type := Env -> outcome A.

Definition ret {A} (a : A) : M A := fun s => Done a s.

Definition bind {A B} (m : M A) (k : A -> M B) : M B :=
  fun s =>
    match m s with
    | Done a s' => k a s'
    | Thrown e s' => Thrown e s'
    | Undefined => Undefined
    end.

Definition undefined {A} : M A := fun _ => Undefined.

(** Access that is only defined in range ([operator[]], [operator*]). *)
Definition defined {A} (o : option A) : M A :=
  match o with
  | Some a => ret a
  | None => undefined
  end.
End Effects.

Arguments Event : clear implicits.
Arguments Env : clear implicits.
Arguments outcome : clear implicits.
Arguments M : clear implicits.

Declare Scope eff_scope.
Delimit Scope eff_scope with eff.
Notation "x <- m ;; k" := (bind m (fun x => k))
  (at level 100, m at next level, right associativity) : eff_scope.
Notation "m ;;; k" := (bind m (fun _ => k))
  (at level 100, right associativity) : eff_scope.

(** ** The routine [eztimer::time] *)

Section Time.
Context {World Result TimePoint Exn Rng : Type}.

Local Abbreviation St := (Env World Result TimePoint Exn).
Local Abbreviation Eff := (M World Result TimePoint Exn).

(** [std::chrono::steady_clock::now()]. *)
Variable steady_clock_now : World -> TimePoint * World.
(** [duration_cast<duration<double>>(end - start)], called as [elapsed start end]. *)
Variable elapsed : TimePoint -> TimePoint -> duration.
(** [std::mt19937_64 rng(seed)]. *)
Variable mt19937_64 : Z -> Rng.
(** [std::shuffle(first, last, rng)] on the elements of the range. *)
Variable std_shuffle : list nat -> Rng -> list nat * Rng.

(** [funs]: each candidate produces a result and changes the world. *)
Variable funs : list (World -> Result * World).
(** [check]: may throw ([Some e]) and changes the world. *)
Variable check : Result -> nat -> World -> option Exn * World.
Variable opt : Options.

Definition nfun : nat := length funs.

(** *** Primitive effects *)

Definition now : Eff TimePoint :=
  fun s =>
    let '(t, w) := steady_clock_now (world s) in
    Done t {| world := w; log := EvNow t :: log s |}.

Definition call_fun (current : nat) : Eff Result :=
  fun s =>
    match funs !! current with
    | None => Undefined
    | Some fn =>
        let '(r, w) := fn (world s) in
        Done r {| world := w; log := EvCall current r :: log s |}
    end.

Definition call_check (res : Result) (current : nat) : Eff unit :=
  fun s =>
    let '(x, w) := check res current (world s) in
    let s' := {| world := w; log := EvCheck res current x :: log s |} in
    match x with
    | None => Done tt s'
    | Some e => Thrown e s'
    end.

(** *** The execution sequence (lines 115-123) *)

(** One turn of the outer loop: push [0 .. nfun-1], shuffle the last [nfun]
    elements of [order] in place. *)
Definition push_round (order : list nat) (rng : Rng) : list nat * Rng :=
  let pushed := order ++ seq 0 nfun in
  let k := (length pushed - nfun)%nat in
  let '(block, rng') := std_shuffle (drop k pushed) rng in
  (take k pushed ++ block, rng').

Fixpoint build_rounds (n : nat) (order : list nat) (rng : Rng) : list nat * Rng :=
  match n with
  | O => (order, rng)
  | S n' => let '(order', rng') := push_round order rng in build_rounds n' order' rng'
  end.

(** [order.reserve(num_iterations * nfun)] only sets the capacity when
    [0 <= num_iterations].  For a negative [num_iterations] with at least one
    candidate the conversion to [std::size_t] asks for more than
    [max_size()] and [reserve] throws [std::length_error] before any round;
    the embedding does not cover these inputs.  The statements about [time]
    below assume [valid_options] or [0 <= num_iterations]; the two that do
    not are about a run without candidates, where nothing is reserved, and
    about a reported record with one sample, which no such input gives. *)
Definition build_order (num_iterations : Z) : list nat :=
  fst (build_rounds (Z.to_nat num_iterations) [] (mt19937_64 (seed opt))).

(** *** The dispatch loop (lines 125-157) *)

(** The local variables of the loop: [output], [total_time] and the
    position of the iterator [oIt] in [order]. *)
Record Frame := mkFrame {
  output : list Timings;
  total_time : duration;
  oIt : nat
}.

Definition initial_frame : Frame :=
  {| output := replicate nfun empty_timings; total_time := F64.zero; oIt := 0%nat |}.

Definition exceeds (cap : option duration) (acc : duration) : bool :=
  match cap with
  | Some c => duration_ge acc c
  | None => false
  end.

(** The two [continue] conditions of a timed round. *)
Definition skip_per_function (curout : Timings) : bool :=
  exceeds (max_time_per_function opt) (mean curout).

Definition skip_total (fr : Frame) : bool :=
  exceeds (max_time_total opt) (total_time fr).

Definition push_time (curout : Timings) (curtime : duration) : Timings :=
  {| times := times curout ++ [curtime]; mean := mean curout; sd := sd curout |}.

Definition add_to_mean (curout : Timings) (curtime : duration) : Timings :=
  {| times := times curout; mean := F64.add (mean curout) curtime; sd := sd curout |}.

Definition add_to_total (total : duration) (curtime : duration) : duration :=
  match max_time_total opt with
  | Some _ => F64.add total curtime
  | None => total
  end.

(** The body of the inner loop for round [i], without the [++oIt] of the
    loop header ([order] is the execution sequence). *)
Definition body (order : list nat) (i : Z) (fr : Frame) : Eff Frame :=
  (current <- defined (order !! oIt fr) ;;
   curout <- defined (output fr !! current) ;;
   if (burn_in opt <=? i) && skip_per_function curout then ret fr
   else if (burn_in opt <=? i) && skip_total fr then ret fr
   else
     start <- now ;;
     res <- call_fun current ;;
     finish <- now ;;
     let curtime := elapsed start finish in
     let curout1 := push_time curout curtime in
     if burn_in opt <=? i then
       call_check res current ;;;
       ret {| output := <[current := add_to_mean curout1 curtime]> (output fr);
              total_time := add_to_total (total_time fr) curtime;
              oIt := oIt fr |}
     else
       ret {| output := <[current := curout1]> (output fr);
              total_time := total_time fr;
              oIt := oIt fr |})%eff.

Definition advance (fr : Frame) : Frame :=
  {| output := output fr; total_time := total_time fr; oIt := S (oIt fr) |}.

(** [for (f = 0; f < nfun; ++f, ++oIt)], with [n] turns left. *)
Fixpoint inner_loop (order : list nat) (n : nat) (i : Z) (fr : Frame) : Eff Frame :=
  match n with
  | O => ret fr
  | S n' => (fr' <- body order i fr ;; inner_loop order n' i (advance fr'))%eff
  end.

(** [for (; i < num_iterations; ++i)], with [n] turns left. *)
Fixpoint outer_loop (order : list nat) (n : nat) (i : Z) (fr : Frame) : Eff Frame :=
  match n with
  | O => ret fr
  | S n' => (fr' <- inner_loop order nfun i fr ;; outer_loop order n' (i + 1) fr')%eff
  end.

Definition dispatch (order : list nat) (num_iterations : Z) : Eff Frame :=
  outer_loop order (Z.to_nat num_iterations) 0 initial_frame.

(** *** The reduction (lines 160-176) *)

(** [times.erase(begin, begin + burn_in)]; only defined when the range lies
    within the vector. *)
Definition erase_burn_in (ts : list duration) : option (list duration) :=
  if (0 <=? burn_in opt) && (burn_in opt <=? Z.of_nat (length ts))
  then Some (drop (Z.to_nat (burn_in opt)) ts)
  else None.

Definition add_sq_dev (m : duration) (acc id : duration) : duration :=
  let delta := F64.sub id m in
  F64.add acc (F64.mul delta delta).

Definition reduce_one (curout : Timings) : option Timings :=
  match erase_burn_in (times curout) with
  | None => None
  | Some ts =>
      match ts with
      | [] => Some {| times := ts; mean := mean curout; sd := sd curout |}
      | _ :: _ =>
          let size := Z.of_nat (length ts) in
          let m := F64.div (mean curout) (size_to_double size) in
          let s := fold_left (add_sq_dev m) ts (sd curout) in
          Some {| times := ts; mean := m;
                  sd := F64.div s (size_to_double (size_sub size 1)) |}
      end
  end.

Fixpoint reduce (out : list Timings) : option (list Timings) :=
  match out with
  | [] => Some []
  | curout :: rest =>
      match reduce_one curout with
      | None => None
      | Some t =>
          match reduce rest with
          | None => None
          | Some ts => Some (t :: ts)
          end
      end
  end.

(** *** [time]

    [assert(oIt == order.end())] compiles to nothing in a release build; that
    the condition holds is lemma [dispatch_reaches_end] of Part II. *)

Definition time : Eff (list Timings) :=
  match int_add (iterations opt) (burn_in opt) with
  | None => undefined
  | Some num_iterations =>
      let order := build_order num_iterations in
      (fr <- dispatch order num_iterations ;;
       defined (reduce (output fr)))%eff
  end.
End Time.

(** ** Specification-level definitions

    These are not part of the routine: they describe runs, logs and the
    statistics in the words of the specification, and are compared with the
    code in Part II. *)

(** Left-to-right floating-point sum, starting from [+0]. *)
Definition fsum (l : list duration) : duration := fold_left F64.add l F64.zero.

(** "Arithmetic mean": sum divided by count. *)
Definition arithmetic_mean (ts : list duration) : duration :=
  F64.div (fsum ts) (F64.of_Z (Z.of_nat (length ts))).

(** "Sum of squared deviations from the mean". *)
Definition sum_sq_dev (m : duration) (ts : list duration) : duration :=
  fsum (map (fun x => F64.mul (F64.sub x m) (F64.sub x m)) ts).

(** "Divide the sum of squared deviations by count - 1" (Bessel's correction). *)
Definition bessel (ts : list duration) : duration :=
  F64.div (sum_sq_dev (arithmetic_mean ts) ts) (F64.of_Z (Z.of_nat (length ts) - 1)).

(** The record reported for the trimmed sample sequence [ts]. *)
Definition summary (ts : list duration) : Timings :=
  match ts with
  | [] => {| times := []; mean := F64.zero; sd := F64.zero |}
  | _ :: _ => {| times := ts; mean := arithmetic_mean ts; sd := bessel ts |}
  end.

(** Configurations of the data model: non-negative counts whose sum is an [int]. *)
Definition valid_options (opt : Options) : bool :=
  (0 <=? iterations opt) && (0 <=? burn_in opt)
  && (iterations opt + burn_in opt <=? INT_MAX).

Definition no_budgets (opt : Options) : Prop :=
  max_time_per_function opt = None /\ max_time_total opt = None.

Section Observations.
Context {World Result TimePoint Exn Rng : Type}.

Local Abbreviation Ev := (Event Result TimePoint Exn).
Local Abbreviation St := (Env World Result TimePoint Exn).

Variable steady_clock_now : World -> TimePoint * World.
Variable elapsed : TimePoint -> TimePoint -> duration.
Variable std_shuffle : list nat -> Rng -> list nat * Rng.

(** A run starts with an empty log. *)
Definition fresh (w : World) : St := {| world := w; log := [] |}.

(** The contract of [std::shuffle]: the range is permuted. *)
Definition shuffle_permutes : Prop :=
  forall l g, fst (std_shuffle l g) ≡ₚ l.

(** The generator after [k] blocks of [n] candidates, and the [k]-th block. *)
Fixpoint rng_after (n : nat) (g : Rng) (k : nat) : Rng :=
  match k with
  | O => g
  | S k' => snd (std_shuffle (seq 0 n) (rng_after n g k'))
  end.

Definition block (n : nat) (g : Rng) (k : nat) : list nat :=
  fst (std_shuffle (seq 0 n) (rng_after n g k)).

(** The blocks of a schedule of [rounds] rounds over [n] candidates. *)
Definition blocks_of (n : nat) (g : Rng) (rounds : nat) : list (list nat) :=
  map (block n g) (seq 0 rounds).

(** A block is a permutation of [0 .. n-1]. *)
Definition is_block (n : nat) (blk : list nat) : Prop := blk ≡ₚ seq 0 n.

(** "Invoke the candidate between two timestamps": the result, the elapsed
    duration and the environment afterwards. *)
Definition timed_call (fn : World -> Result * World) (f : nat) (s : St)
  : Result * duration * St :=
  let '(t1, w1) := steady_clock_now (world s) in
  let '(r, w2) := fn w1 in
  let '(t2, w3) := steady_clock_now w2 in
  (r, elapsed t1 t2,
   {| world := w3; log := EvNow t2 :: EvCall f r :: EvNow t1 :: log s |}).

(** The candidates invoked, newest first. *)
Fixpoint calls (l : list Ev) : list nat :=
  match l with
  | [] => []
  | EvCall f _ :: l' => f :: calls l'
  | _ :: l' => calls l'
  end.

(** The candidates invoked, in the order of invocation. *)
Definition call_order (l : list Ev) : list nat := rev (calls l).

(** Number of calls of the validation callback, and of those that threw. *)
Fixpoint count_checks (l : list Ev) : nat :=
  match l with
  | [] => O
  | EvCheck _ _ _ :: l' => S (count_checks l')
  | _ :: l' => count_checks l'
  end.

Fixpoint count_failed (l : list Ev) : nat :=
  match l with
  | [] => O
  | EvCheck _ _ (Some _) :: l' => S (count_failed l')
  | _ :: l' => count_failed l'
  end.

(** The durations measured for candidate [f], oldest first: every call of
    [f] that lies between two readings of the clock. *)
Fixpoint samples (f : nat) (l : list Ev) : list duration :=
  match l with
  | [] => []
  | EvNow t2 :: l1 =>
      match l1 with
      | EvCall g _ :: EvNow t1 :: l3 =>
          if Nat.eqb g f then samples f l3 ++ [elapsed t1 t2] else samples f l3
      | _ => samples f l1
      end
  | _ :: l1 => samples f l1
  end.
End Observations.

(** ** One schedule entry, in the words of the specification *)

Section Steps.
Context {World Result TimePoint Exn : Type}.

Local Abbreviation St := (Env World Result TimePoint Exn).

Variable steady_clock_now : World -> TimePoint * World.
Variable elapsed : TimePoint -> TimePoint -> duration.
Variable check : Result -> nat -> World -> option Exn * World.
Variable opt : Options.

(** The record of a candidate after a timed call of duration [d]. *)
Definition record_timed (c : Timings) (d : duration) : Timings :=
  {| times := times c ++ [d]; mean := F64.add (mean c) d; sd := sd c |}.

(** The record of a candidate after a burn-in call of duration [d]. *)
Definition record_burn_in (c : Timings) (d : duration) : Timings :=
  {| times := times c ++ [d]; mean := mean c; sd := sd c |}.

(** A budget is exhausted for the candidate with record [c]. *)
Definition budget_exhausted (c : Timings) (fr : Frame) : Prop :=
  (exists cap, max_time_per_function opt = Some cap /\ duration_ge (mean c) cap = true)
  \/ (exists cap, max_time_total opt = Some cap /\ duration_ge (total_time fr) cap = true).

(** Burn-in round: call unconditionally, keep the sample, nothing else. *)
Definition burn_in_step (fn : World -> Result * World) (f : nat) (c : Timings)
    (fr : Frame) (s : St) : outcome World Result TimePoint Exn Frame :=
  let '(_, d, s1) := timed_call steady_clock_now elapsed fn f s in
  Done {| output := <[f := record_burn_in c d]> (output fr);
          total_time := total_time fr;
          oIt := oIt fr |} s1.

(** Timed round, budgets not exhausted: call between two timestamps, then
    validate, then accumulate. *)
Definition timed_step (fn : World -> Result * World) (f : nat) (c : Timings)
    (fr : Frame) (s : St) : outcome World Result TimePoint Exn Frame :=
  let '(r, d, s1) := timed_call steady_clock_now elapsed fn f s in
  let '(x, w) := check r f (world s1) in
  let s2 := {| world := w; log := EvCheck r f x :: log s1 |} in
  match x with
  | None =>
      Done {| output := <[f := record_timed c d]> (output fr);
              total_time := match max_time_total opt with
                            | Some _ => F64.add (total_time fr) d
                            | None => total_time fr
                            end;
              oIt := oIt fr |} s2
  | Some e => Thrown e s2
  end.
End Steps.

(** ** Invariants of the dispatch loop *)

Section Invariants.
Context {World Result TimePoint Exn : Type}.

Local Abbreviation St := (Env World Result TimePoint Exn).

Variable elapsed : TimePoint -> TimePoint -> duration.
Variable funs : list (World -> Result * World).
Variable check : Result -> nat -> World -> option Exn * World.
Variable opt : Options.
Variable order : list nat.

(** Postconditions: [Q] on normal termination, [T] when an exception
    leaves the computation; undefined behaviour is excluded. *)
Definition post {A} (o : outcome World Result TimePoint Exn A)
    (Q : A -> St -> Prop) (T : Exn -> St -> Prop) : Prop :=
  match o with
  | Done a s => Q a s
  | Thrown e s => T e s
  | Undefined => False
  end.

(** The exception [e] was thrown by [check] in the last event; no earlier
    call of [check] threw. *)
Definition thrown_by_check (e : Exn) (s : St) : Prop :=
  exists r f l w,
    log s = EvCheck r f (Some e) :: l /\ count_failed l = O
    /\ check r f w = (Some e, world s).

(** Every candidate occurs once in each of the first [k] blocks. *)
Definition balanced : Prop :=
  forall (k f : nat),
    (k * nfun funs <= length order)%nat -> (f < nfun funs)%nat ->
    count_occ Nat.eq_dec (take (k * nfun funs) order) f = k.

(** The record of candidate [f] at position [p] of [order]; [ph] tells
    whether the loop is still in the burn-in rounds, and [base] is the frame
    at the start of the phase. *)
Record rec_inv (base : Frame) (ph : bool) (p : nat) (s : St) (f : nat) (c : Timings)
  : Prop := {
  ri_samples : times c = samples elapsed f (log s);
  ri_sd : sd c = F64.zero;
  ri_le : (length (times c) <= count_occ Nat.eq_dec (take p order) f)%nat;
  ri_eq : no_budgets opt \/ ph = true ->
          length (times c) = count_occ Nat.eq_dec (take p order) f;
  ri_mean_burn : ph = true -> mean c = F64.zero;
  ri_mean_timed : ph = false ->
          (Z.to_nat (burn_in opt) <= length (times c))%nat /\
          mean c = fsum (drop (Z.to_nat (burn_in opt)) (times c));
  ri_base : exists c0, output base !! f = Some c0 /\ times c0 `prefix_of` times c
}.

Record Inv (base : Frame) (ph : bool) (fr : Frame) (s : St) : Prop := {
  inv_len : length (output fr) = nfun funs;
  inv_passed : count_failed (log s) = O;
  inv_nochecks : ph = true -> count_checks (log s) = O;
  inv_total : ph = true -> total_time fr = F64.zero;
  inv_calls : call_order (log s) `sublist_of` take (oIt fr) order;
  inv_calls_eq : no_budgets opt \/ ph = true ->
                 call_order (log s) = take (oIt fr) order;
  inv_rec : forall f c, output fr !! f = Some c -> rec_inv base ph (oIt fr) s f c
}.

(** The phase of round [i]. *)
Definition in_phase (ph : bool) (i : Z) : Prop :=
  if ph then i < burn_in opt else burn_in opt <= i.
End Invariants.

(** ** Further observations on logs *)

Section Logs.
Context {World Result TimePoint Exn : Type}.

Local Abbreviation Ev := (Event Result TimePoint Exn).

Variable elapsed : TimePoint -> TimePoint -> duration.
Variable opt : Options.

(** Number of calls [check(_, f)]. *)
Fixpoint checks_for (f : nat) (l : list Ev) : nat :=
  match l with
  | [] => O
  | EvCheck _ g _ :: l' => ((if Nat.eqb g f then 1 else 0) + checks_for f l')%nat
  | _ :: l' => checks_for f l'
  end.

(** The durations of the calls that were followed by a call of [check],
    oldest first. *)
Fixpoint checked_durations (l : list Ev) : list duration :=
  match l with
  | [] => []
  | EvCheck _ _ _ :: l1 =>
      match l1 with
      | EvNow t2 :: EvCall _ _ :: EvNow t1 :: l2 =>
          checked_durations l2 ++ [elapsed t1 t2]
      | _ => checked_durations l1
      end
  | _ :: l1 => checked_durations l1
  end.

(** The shape of a log: a sequence of calls, each between two readings of
    the clock, each followed by at most one call of [check], which is on the
    result of that call and on the index of the candidate called. *)
Fixpoint well_formed (l : list Ev) : Prop :=
  match l with
  | [] => True
  | EvCheck r f _ :: l1 =>
      match l1 with
      | EvNow _ :: EvCall g r' :: EvNow _ :: l2 => f = g /\ r = r' /\ well_formed l2
      | _ => False
      end
  | EvNow _ :: l1 =>
      match l1 with
      | EvCall _ _ :: EvNow _ :: l2 => well_formed l2
      | _ => False
      end
  | EvCall _ _ :: _ => False
  end.

(** Every timed call is skipped from this frame on: the total budget is
    reached, or the budget of every candidate is. *)
Definition all_skipped (fr : Frame) : Prop :=
  skip_total opt fr = true
  \/ Forall (fun c => skip_per_function opt c = true) (output fr).
End Logs.

(** ** A concrete instance, after [tests/src/eztimer.cpp]

    Three candidates that sleep for 10, 20 and 30 milliseconds and return
    their index; [check] throws when the result is not the index.  The world
    is the reading of the steady clock in nanoseconds. *)

Module Sample.
Definition World : Type := Z.
Definition TimePoint : Type := Z.
Definition Result : Type := Z.
Definition Exn : Type := unit.
Definition Rng : Type := Z.

Definition steady_clock_now (w : World) : TimePoint * World := (w, w).

(** Nanosecond ticks to seconds in [double]. *)
Definition elapsed (start finish : TimePoint) : duration :=
  F64.div (F64.of_Z (finish - start)) (F64.of_Z 1000000000).

Definition milliseconds (ms : Z) : duration :=
  F64.div (F64.of_Z ms) (F64.of_Z 1000).

Definition sleeper (ms : Z) (r : Result) : World -> Result * World :=
  fun w => (r, w + ms * 1000000).

Definition funs : list (World -> Result * World) :=
  [sleeper 10 0; sleeper 20 1; sleeper 30 2].

Definition check (x : Result) (i : nat) (w : World) : option Exn * World :=
  if x =? Z.of_nat i then (None, w) else (Some tt, w).

(** A candidate whose calls take [k], [2k], [4k], ... seconds when it runs
    alone from clock reading 0: each call lasts as long as the clock reading
    at its start plus [k] seconds. *)
Definition doubling (k : Z) : World -> Result * World :=
  fun w => (0, 2 * w + k * 1000000000).

(** A validation callback that accepts every result. *)
Definition accept (x : Result) (i : nat) (w : World) : option Exn * World :=
  (None, w).

(** A candidate list on which [check] rejects the second candidate. *)
Definition wrong_funs : list (World -> Result * World) :=
  [sleeper 10 0; sleeper 20 7; sleeper 30 2].

(** A small generator and a shuffle that draws the elements one by one. *)
Definition seed_rng (seed : Z) : Rng := seed mod 2 ^ 64.

Definition next_rng (g : Rng) : Rng :=
  (6364136223846793005 * g + 1442695040888963407) mod 2 ^ 64.

Fixpoint draw (n : nat) (l : list nat) (g : Rng) : list nat * Rng :=
  match n with
  | O => (l, g)
  | S n' =>
      let g' := next_rng g in
      let k := Z.to_nat ((g' / 2 ^ 33) mod Z.of_nat (length l)) in
      match l !! k with
      | Some x => let '(rest, g'') := draw n' (delete k l) g' in (x :: rest, g'')
      | None => (l, g')
      end
  end.

Definition shuffle (l : list nat) (g : Rng) : list nat * Rng := draw (length l) l g.

(** A run of [time] from clock reading 0, and its schedule. *)
Abbreviation run fs opt :=
  (time steady_clock_now elapsed seed_rng shuffle fs check opt (fresh 0)).

Abbreviation order_of opt :=
  (build_order seed_rng shuffle funs opt (iterations opt + burn_in opt)).

Definition sizes (o : outcome World Result TimePoint Exn (list Timings)) : option (list nat) :=
  match o with
  | Done out _ => Some (map (fun t => length (times t)) out)
  | _ => None
  end.

Definition cap_per_function (ms : Z) : Options :=
  {| iterations := 10; burn_in := 1; seed := 123456;
     max_time_per_function := Some (milliseconds ms); max_time_total := None |}.

Definition cap_total (ms : Z) : Options :=
  {| iterations := 10; burn_in := 1; seed := 123456;
     max_time_per_function := None; max_time_total := Some (milliseconds ms) |}.

Definition with_rounds (it b : Z) : Options :=
  {| iterations := it; burn_in := b; seed := 123456;
     max_time_per_function := None; max_time_total := None |}.
End Sample.

(* ===================================================================== *)
(** * Part II: properties                                                 *)
(* ===================================================================== *)

(** ** Floating-point facts *)

Lemma div_by_zero_not_finite (x : duration) :
  F64.is_finite (F64.div x F64.zero) = false.
Proof. destruct x as [[]|[]| |[] m e]; reflexivity. Qed.

Lemma fsum_snoc (l : list duration) (x : duration) :
  fsum (l ++ [x]) = F64.add (fsum l) x.
Proof. unfold fsum. rewrite fold_left_app. reflexivity. Qed.

Lemma fold_add_sq_dev (m : duration) (ts : list duration) (acc : duration) :
  fold_left (add_sq_dev m) ts acc
  = fold_left F64.add (map (fun x => F64.mul (F64.sub x m) (F64.sub x m)) ts) acc.
Proof.
  revert acc. induction ts as [|x ts IH]; intros acc; simpl; [reflexivity|].
  rewrite IH. reflexivity.
Qed.

(** [operator>=] agrees with the IEEE comparison on ordered operands and
    holds whenever an operand is not a number. *)
Lemma duration_ge_compare (a b : duration) :
  duration_ge a b = true <->
  SFcompare a b = Some Eq \/ SFcompare a b = Some Gt \/ SFcompare a b = None.
Proof.
  unfold duration_ge, F64.ltb, SFltb.
  destruct (SFcompare a b) as [[]|]; simpl; split; intros H;
    repeat (destruct H as [H|H]); try discriminate; auto.
Qed.

(** ** Machine integers *)

Lemma size_sub_1 (n : Z) : 1 <= n <= INT_MAX -> size_sub n 1 = n - 1.
Proof.
  intros H. unfold size_sub, SIZE_MODULUS. apply Z.mod_small.
  unfold INT_MAX in H. lia.
Qed.

Lemma valid_options_spec (opt : Options) :
  valid_options opt = true <->
  0 <= iterations opt /\ 0 <= burn_in opt /\ iterations opt + burn_in opt <= INT_MAX.
Proof. unfold valid_options. rewrite !andb_true_iff, !Z.leb_le. tauto. Qed.

Lemma int_add_valid (opt : Options) :
  valid_options opt = true ->
  int_add (iterations opt) (burn_in opt) = Some (iterations opt + burn_in opt).
Proof.
  intros H%valid_options_spec. unfold int_add, in_int.
  destruct (INT_MIN <=? _) eqn:E1, (_ <=? INT_MAX) eqn:E2; simpl; try reflexivity;
    rewrite ?Z.leb_gt, ?Z.leb_le in *; unfold INT_MIN in *; lia.
Qed.

(** ** Sequences made of blocks that permute [0 .. n-1] *)

Section Blocks.
Variable n : nat.

Lemma is_block_length blk : is_block n blk -> length blk = n.
Proof. intros H. rewrite (Permutation_length H). apply length_seq. Qed.

Lemma is_block_bound blk : is_block n blk -> Forall (fun f => (f < n)%nat) blk.
Proof.
  intros H. apply Forall_forall. intros f Hf. unfold is_block in H.
  rewrite H in Hf. apply elem_of_seq in Hf. lia.
Qed.

Lemma is_block_count blk f :
  is_block n blk -> (f < n)%nat -> count_occ Nat.eq_dec blk f = 1%nat.
Proof.
  intros H Hf.
  rewrite (proj1 (Permutation_count_occ Nat.eq_dec blk (seq 0 n)) H f).
  apply (proj1 (NoDup_count_occ' Nat.eq_dec (seq 0 n))).
  - apply List.seq_NoDup.
  - apply in_seq. lia.
Qed.

Lemma blocks_length bs :
  Forall (is_block n) bs -> length (concat bs) = (length bs * n)%nat.
Proof.
  induction 1 as [|blk bs Hb _ IH]; simpl; [reflexivity|].
  rewrite length_app, IH, (is_block_length _ Hb). reflexivity.
Qed.

Lemma blocks_bound bs :
  Forall (is_block n) bs -> Forall (fun f => (f < n)%nat) (concat bs).
Proof.
  induction 1 as [|blk bs Hb _ IH]; simpl; [constructor|].
  apply Forall_app. split; [apply is_block_bound|]; assumption.
Qed.

Lemma blocks_take bs k :
  Forall (is_block n) bs -> take (k * n) (concat bs) = concat (take k bs).
Proof.
  intros H. revert k. induction H as [|blk bs Hb _ IH]; intros k.
  - simpl. rewrite !take_nil. reflexivity.
  - destruct k as [|k]; simpl; [reflexivity|].
    rewrite <- (is_block_length _ Hb) at 1.
    rewrite take_app_add, IH. reflexivity.
Qed.

Lemma blocks_drop bs k :
  Forall (is_block n) bs -> drop (k * n) (concat bs) = concat (drop k bs).
Proof.
  intros H. revert k. induction H as [|blk bs Hb _ IH]; intros k.
  - simpl. rewrite !drop_nil. reflexivity.
  - destruct k as [|k]; simpl; [reflexivity|].
    rewrite <- (is_block_length _ Hb) at 1.
    rewrite drop_app_add, IH. reflexivity.
Qed.

Lemma blocks_nth bs k blk :
  Forall (is_block n) bs -> bs !! k = Some blk ->
  take n (drop (k * n) (concat bs)) = blk.
Proof.
  intros H Hk. rewrite (blocks_drop _ _ H).
  rewrite (drop_S _ _ _ Hk). simpl.
  assert (Hb : is_block n blk).
  { eapply (proj1 (Forall_forall _ _) H), list_elem_of_lookup_2, Hk. }
  rewrite <- (is_block_length _ Hb). apply take_app_length.
Qed.

Lemma blocks_count bs f :
  Forall (is_block n) bs -> (f < n)%nat ->
  count_occ Nat.eq_dec (concat bs) f = length bs.
Proof.
  intros H Hf. induction H as [|blk bs Hb _ IH]; simpl; [reflexivity|].
  rewrite count_occ_app, IH, (is_block_count _ _ Hb Hf). reflexivity.
Qed.

Lemma blocks_balanced bs k f :
  Forall (is_block n) bs -> (k <= length bs)%nat -> (f < n)%nat ->
  count_occ Nat.eq_dec (take (k * n) (concat bs)) f = k.
Proof.
  intros H Hk Hf. rewrite (blocks_take _ _ H).
  rewrite blocks_count; [|apply Forall_take; assumption|assumption].
  rewrite length_take. lia.
Qed.
End Blocks.

Lemma count_occ_snoc (l : list nat) (g f : nat) :
  count_occ Nat.eq_dec (l ++ [g]) f
  = (count_occ Nat.eq_dec l f + if Nat.eqb g f then 1 else 0)%nat.
Proof.
  rewrite count_occ_app. simpl.
  destruct (Nat.eq_dec g f) as [->|Hne].
  - rewrite Nat.eqb_refl. reflexivity.
  - apply Nat.eqb_neq in Hne. rewrite Hne. reflexivity.
Qed.

(** ** The execution sequence *)

Section Schedule.
Context {World Result Rng : Type}.
Variable mt19937_64 : Z -> Rng.
Variable std_shuffle : list nat -> Rng -> list nat * Rng.
Variable funs : list (World -> Result * World).

Local Abbreviation N := (nfun funs).

Lemma push_round_eq (order : list nat) (g : Rng) :
  push_round std_shuffle funs order g
  = (order ++ block std_shuffle N g 0, rng_after std_shuffle N g 1).
Proof.
  unfold push_round, block. simpl.
  rewrite length_app, length_seq.
  replace (length order + N - N)%nat with (length order) by lia.
  rewrite drop_app_length, take_app_length.
  destruct (std_shuffle (seq 0 N) g); reflexivity.
Qed.

Lemma rng_after_shift (g : Rng) (k : nat) :
  rng_after std_shuffle N (rng_after std_shuffle N g 1) k
  = rng_after std_shuffle N g (S k).
Proof. induction k as [|k IH]; simpl in *; [reflexivity|]. rewrite IH. reflexivity. Qed.

Lemma block_shift (g : Rng) (k : nat) :
  block std_shuffle N (rng_after std_shuffle N g 1) k = block std_shuffle N g (S k).
Proof. unfold block. rewrite rng_after_shift. reflexivity. Qed.

Lemma blocks_of_S (g : Rng) (n : nat) :
  blocks_of std_shuffle N g (S n)
  = block std_shuffle N g 0 :: blocks_of std_shuffle N (rng_after std_shuffle N g 1) n.
Proof.
  unfold blocks_of. simpl. f_equal.
  rewrite <- fmap_S_seq, <- list_fmap_compose.
  apply map_ext. intros k. symmetry. apply block_shift.
Qed.

Lemma build_rounds_eq (n : nat) (order : list nat) (g : Rng) :
  build_rounds std_shuffle funs n order g
  = (order ++ concat (blocks_of std_shuffle N g n), rng_after std_shuffle N g n).
Proof.
  revert order g. induction n as [|n IH]; intros order g.
  - simpl. rewrite app_nil_r. reflexivity.
  - cbn [build_rounds]. rewrite push_round_eq, IH, blocks_of_S.
    simpl concat. rewrite <- app_assoc, rng_after_shift. reflexivity.
Qed.

Lemma build_order_eq (opt : Options) (num : Z) :
  build_order mt19937_64 std_shuffle funs opt num
  = concat (blocks_of std_shuffle N (mt19937_64 (seed opt)) (Z.to_nat num)).
Proof. unfold build_order. rewrite build_rounds_eq. reflexivity. Qed.

Lemma blocks_of_length g n : length (blocks_of std_shuffle N g n) = n.
Proof. unfold blocks_of. rewrite length_map, length_seq. reflexivity. Qed.

Lemma blocks_of_lookup g n k :
  (k < n)%nat -> blocks_of std_shuffle N g n !! k = Some (block std_shuffle N g k).
Proof.
  intros Hk. unfold blocks_of. rewrite list_lookup_fmap, lookup_seq_lt by lia.
  reflexivity.
Qed.

Hypothesis shuffle_ok : shuffle_permutes std_shuffle.

Lemma blocks_of_perm g n : Forall (is_block N) (blocks_of std_shuffle N g n).
Proof.
  apply Forall_forall. intros blk Hin. unfold blocks_of in Hin.
  apply list_elem_of_fmap in Hin as (k & -> & _). apply shuffle_ok.
Qed.

Lemma build_order_length opt num :
  length (build_order mt19937_64 std_shuffle funs opt num) = (Z.to_nat num * N)%nat.
Proof.
  rewrite build_order_eq, (blocks_length N) by apply blocks_of_perm.
  rewrite blocks_of_length. reflexivity.
Qed.

Lemma build_order_bound opt num :
  Forall (fun f => (f < N)%nat) (build_order mt19937_64 std_shuffle funs opt num).
Proof. rewrite build_order_eq. apply blocks_bound, blocks_of_perm. Qed.

Lemma build_order_balanced opt num :
  balanced funs (build_order mt19937_64 std_shuffle funs opt num).
Proof.
  intros k f Hk Hf. rewrite build_order_length in Hk.
  rewrite build_order_eq. apply blocks_balanced; [apply blocks_of_perm| |assumption].
  rewrite blocks_of_length.
  destruct (Nat.eq_dec N 0%nat) as [E|E]; [lia|].
  apply Nat.mul_le_mono_pos_r in Hk; lia.
Qed.

Lemma build_order_count opt num f :
  (f < N)%nat ->
  count_occ Nat.eq_dec (build_order mt19937_64 std_shuffle funs opt num) f
  = Z.to_nat num.
Proof.
  intros Hf. rewrite build_order_eq, (blocks_count N) by (apply blocks_of_perm || assumption).
  apply blocks_of_length.
Qed.
End Schedule.

(** ** The dispatch loop *)

Section Dispatch.
Context {World Result TimePoint Exn : Type}.

Local Abbreviation St := (Env World Result TimePoint Exn).

Variable steady_clock_now : World -> TimePoint * World.
Variable elapsed : TimePoint -> TimePoint -> duration.
Variable funs : list (World -> Result * World).
Variable check : Result -> nat -> World -> option Exn * World.
Variable opt : Options.
Variable order : list nat.

Local Abbreviation N := (nfun funs).
Local Abbreviation body' := (body steady_clock_now elapsed funs check opt order).
Local Abbreviation inner' := (inner_loop steady_clock_now elapsed funs check opt order).
Local Abbreviation outer' := (outer_loop steady_clock_now elapsed funs check opt order).
Local Abbreviation Inv' := (@Inv World Result TimePoint Exn elapsed funs opt order).

Lemma exceeds_true cap acc :
  exceeds cap acc = true <-> exists c, cap = Some c /\ duration_ge acc c = true.
Proof.
  destruct cap as [c|]; simpl; split.
  - intros H. exists c. auto.
  - intros (c' & [= <-] & H). exact H.
  - discriminate.
  - intros (c' & [=] & _).
Qed.

Lemma skip_exhausted c fr :
  skip_per_function opt c || skip_total opt fr = true <-> budget_exhausted opt c fr.
Proof.
  unfold skip_per_function, skip_total, budget_exhausted.
  rewrite orb_true_iff, !exceeds_true. reflexivity.
Qed.

Lemma exhausted_budgets c fr : budget_exhausted opt c fr -> ~ no_budgets opt.
Proof.
  intros [(cap & E & _)|(cap & E & _)] [H1 H2]; congruence.
Qed.

(** The body of the loop is one step of the specification. *)
Lemma body_spec i fr s f c fn :
  order !! oIt fr = Some f -> output fr !! f = Some c -> funs !! f = Some fn ->
  body' i fr s =
    if burn_in opt <=? i then
      if skip_per_function opt c || skip_total opt fr then Done fr s
      else timed_step steady_clock_now elapsed check opt fn f c fr s
    else burn_in_step steady_clock_now elapsed fn f c fr s.
Proof.
  intros Ho Hc Hf. unfold body, bind. rewrite Ho. simpl. rewrite Hc. simpl.
  unfold timed_step, burn_in_step, timed_call, now, call_fun, call_check, ret.
  destruct (burn_in opt <=? i); simpl.
  - destruct (skip_per_function opt c); simpl; [reflexivity|].
    destruct (skip_total opt fr); simpl; [reflexivity|].
    destruct (steady_clock_now (world s)) as [t1 w1]; simpl. rewrite Hf.
    destruct (fn w1) as [r w2]; simpl.
    destruct (steady_clock_now w2) as [t2 w3]; simpl.
    destruct (check r f w3) as [[e|] w4]; simpl; [reflexivity|].
    unfold add_to_total, add_to_mean, push_time, record_timed. simpl. reflexivity.
  - destruct (steady_clock_now (world s)) as [t1 w1]; simpl. rewrite Hf.
    destruct (fn w1) as [r w2]; simpl.
    destruct (steady_clock_now w2) as [t2 w3]; simpl. reflexivity.
Qed.
(** A skipped entry keeps the invariant. *)
Lemma inv_skip base fr s f :
  Inv' base false fr s -> order !! oIt fr = Some f -> ~ no_budgets opt ->
  Inv' base false (advance fr) s.
Proof.
  intros [Hlen Hpass Hnc Htot Hcalls Hceq Hrec] Ho Hnb.
  constructor; simpl; try assumption.
  - rewrite (take_S_r _ _ _ Ho). apply sublist_inserts_r. assumption.
  - intros [H|H]; [contradiction | discriminate].
  - intros g c' Hg. destruct (Hrec g c' Hg) as [R1 R2 R3 R4 R5 R6 R7].
    constructor; simpl; try assumption.
    + rewrite (take_S_r _ _ _ Ho), count_occ_snoc. lia.
    + intros [H|H]; [contradiction | discriminate].
Qed.

(** An entry that calls candidate [f] and records [d] keeps the invariant. *)
Lemma inv_call base ph fr s f c c' d w' L' tot' :
  Inv' base ph fr s -> order !! oIt fr = Some f -> output fr !! f = Some c ->
  times c' = times c ++ [d] -> sd c' = sd c ->
  (forall g, samples elapsed g L'
             = samples elapsed g (log s) ++ (if Nat.eqb f g then [d] else [])) ->
  calls L' = f :: calls (log s) ->
  count_failed L' = count_failed (log s) ->
  (ph = true ->
     count_checks L' = count_checks (log s) /\ mean c' = mean c /\ tot' = total_time fr) ->
  (ph = false -> mean c' = F64.add (mean c) d) ->
  Inv' base ph
    (advance {| output := <[f := c']> (output fr); total_time := tot'; oIt := oIt fr |})
    {| world := w'; log := L' |}.
Proof.
  intros [Hlen Hpass Hnc Htot Hcalls Hceq Hrec] Ho Hc Ht Hsd Hsam Hcl Hcf Hburn Htimed.
  assert (Hlt : (f < length (output fr))%nat) by (eapply lookup_lt_Some; eassumption).
  constructor; simpl.
  - rewrite length_insert. assumption.
  - rewrite Hcf. assumption.
  - intros Hi. destruct (Hburn Hi) as (-> & _ & _). auto.
  - intros Hi. destruct (Hburn Hi) as (_ & _ & ->). auto.
  - unfold call_order in *. rewrite Hcl. simpl. rewrite (take_S_r _ _ _ Ho).
    apply sublist_app; [assumption | reflexivity].
  - intros H. unfold call_order in *. rewrite Hcl. simpl.
    rewrite (take_S_r _ _ _ Ho), (Hceq H). reflexivity.
  - intros g cg Hg. destruct (decide (f = g)) as [<-|Hne].
    + rewrite list_lookup_insert_eq in Hg by assumption. injection Hg as <-.
      destruct (Hrec f c Hc) as [R1 R2 R3 R4 R5 R6 R7].
      constructor; simpl; rewrite ?(take_S_r _ _ _ Ho).
      * rewrite Ht, Hsam, Nat.eqb_refl, R1. reflexivity.
      * congruence.
      * rewrite Ht, length_app, count_occ_snoc, Nat.eqb_refl. simpl. lia.
      * intros H. rewrite Ht, length_app, count_occ_snoc, Nat.eqb_refl, (R4 H).
        reflexivity.
      * intros Hi. destruct (Hburn Hi) as (_ & -> & _). auto.
      * intros Hi. destruct (R6 Hi) as [Hb Hm]. split.
        -- rewrite Ht, length_app. lia.
        -- rewrite (Htimed Hi), Ht, drop_app_le, fsum_snoc, Hm by assumption.
           reflexivity.
      * destruct R7 as (c0 & Hc0 & Hpre). exists c0. split; [assumption|].
        rewrite Ht. apply prefix_app_r. assumption.
    + rewrite list_lookup_insert_ne in Hg by assumption.
      destruct (Hrec g cg Hg) as [R1 R2 R3 R4 R5 R6 R7].
      assert (Hfg : Nat.eqb f g = false) by (apply Nat.eqb_neq; assumption).
      constructor; simpl; rewrite ?(take_S_r _ _ _ Ho); try assumption.
      * rewrite Hsam, Hfg, app_nil_r. assumption.
      * rewrite count_occ_snoc, Hfg. lia.
      * intros H. rewrite count_occ_snoc, Hfg, (R4 H). lia.
Qed.

Hypothesis order_bound : Forall (fun f => (f < N)%nat) order.

(** One schedule entry keeps the invariant, or [check] throws. *)
Lemma body_inv base ph i fr s :
  in_phase opt ph i -> Inv' base ph fr s -> (oIt fr < length order)%nat ->
  post (body' i fr s)
    (fun fr' s' => Inv' base ph (advance fr') s' /\ oIt fr' = oIt fr)
    (fun e s' => thrown_by_check check e s' /\ ph = false).
Proof.
  intros Hph HI Hp.
  destruct (lookup_lt_is_Some_2 _ _ Hp) as [f Ho].
  assert (Hf : (f < N)%nat).
  { eapply (proj1 (Forall_forall _ _) order_bound), list_elem_of_lookup_2, Ho. }
  destruct (lookup_lt_is_Some_2 (output fr) f) as [c Hc].
  { rewrite (inv_len _ _ _ _ _ _ _ _ HI). exact Hf. }
  destruct (lookup_lt_is_Some_2 funs f Hf) as [fn Hfn].
  rewrite (body_spec i fr s f c fn Ho Hc Hfn).
  destruct (burn_in opt <=? i) eqn:Ei.
  - apply Z.leb_le in Ei.
    destruct ph; [simpl in Hph; lia|].
    destruct (skip_per_function opt c || skip_total opt fr) eqn:Es.
    + simpl. split; [|reflexivity].
      apply skip_exhausted, exhausted_budgets in Es.
      eapply inv_skip; eassumption.
    + unfold timed_step, timed_call.
      destruct (steady_clock_now (world s)) as [t1 w1].
      destruct (fn w1) as [r w2]. destruct (steady_clock_now w2) as [t2 w3].
      simpl. destruct (check r f w3) as [[e|] w4] eqn:Ec; simpl.
      * split; [|reflexivity].
        exists r, f, (EvNow t2 :: EvCall f r :: EvNow t1 :: log s), w3.
        split; [reflexivity|]. simpl. split; [|assumption].
        apply (inv_passed _ _ _ _ _ _ _ _ HI).
      * split; [|reflexivity].
        eapply inv_call; try eassumption; try reflexivity; simpl.
        -- intros g. destruct (Nat.eqb f g); [reflexivity| rewrite app_nil_r; reflexivity].
        -- discriminate.
  - apply Z.leb_gt in Ei.
    destruct ph; [|simpl in Hph; lia].
    unfold burn_in_step, timed_call.
    destruct (steady_clock_now (world s)) as [t1 w1].
    destruct (fn w1) as [r w2]. destruct (steady_clock_now w2) as [t2 w3].
    simpl. split; [|reflexivity].
    eapply inv_call; try eassumption; try reflexivity; simpl.
    + intros g. destruct (Nat.eqb f g); [reflexivity| rewrite app_nil_r; reflexivity].
    + intros _. auto.
    + discriminate.
Qed.

Lemma inner_loop_inv base ph i n fr s :
  in_phase opt ph i -> Inv' base ph fr s -> (oIt fr + n <= length order)%nat ->
  post (inner' n i fr s)
    (fun fr' s' => Inv' base ph fr' s' /\ oIt fr' = (oIt fr + n)%nat)
    (fun e s' => thrown_by_check check e s' /\ ph = false).
Proof.
  intros Hph. revert fr s. induction n as [|n IH]; intros fr s HI Hp.
  - simpl. split; [assumption | lia].
  - cbn [inner_loop]. unfold bind.
    pose proof (body_inv base ph i fr s Hph HI ltac:(lia)) as Hb.
    destruct (body' i fr s) as [fr1 s1|e s1|]; simpl in Hb; [|exact Hb|exact Hb].
    destruct Hb as [HI1 Hp1].
    specialize (IH (advance fr1) s1 HI1). simpl in IH. rewrite Hp1 in IH.
    specialize (IH ltac:(lia)).
    destruct (inner' n i (advance fr1) s1) as [fr2 s2|e s2|]; simpl in *;
      [|exact IH|exact IH].
    destruct IH as [HI2 Hp2]. split; [assumption | lia].
Qed.

(** [n] rounds from round [i] on, all of them in the phase [ph]. *)
Lemma outer_loop_inv base ph n i fr s :
  in_phase opt ph (if ph then i + Z.of_nat n - 1 else i) ->
  Inv' base ph fr s -> (oIt fr + n * N <= length order)%nat ->
  post (outer' n i fr s)
    (fun fr' s' => Inv' base ph fr' s' /\ oIt fr' = (oIt fr + n * N)%nat)
    (fun e s' => thrown_by_check check e s' /\ ph = false).
Proof.
  revert i fr s. induction n as [|n IH]; intros i fr s Hph HI Hle.
  - simpl. split; [assumption | lia].
  - cbn [outer_loop]. unfold bind.
    assert (Hi : in_phase opt ph i) by (destruct ph; simpl in *; lia).
    pose proof (inner_loop_inv base ph i N fr s Hi HI ltac:(lia)) as Hin.
    destruct (inner' N i fr s) as [fr1 s1|e s1|]; simpl in Hin;
      [|exact Hin|exact Hin].
    destruct Hin as [HI1 Hp1].
    assert (Hph' : in_phase opt ph (if ph then i + 1 + Z.of_nat n - 1 else i + 1))
      by (destruct ph; simpl in *; lia).
    specialize (IH (i + 1) fr1 s1 Hph' HI1 ltac:(lia)).
    destruct (outer' n (i + 1) fr1 s1) as [fr2 s2|e s2|]; simpl in *;
      [|exact IH|exact IH].
    destruct IH as [HI2 Hp2]. split; [assumption | lia].
Qed.

(** The loop over [n + m] rounds is the loop over [n] rounds followed by
    the loop over [m] rounds. *)
Lemma outer_loop_app n m i fr s :
  outer' (n + m) i fr s
  = bind (outer' n i fr) (outer' m (i + Z.of_nat n)) s.
Proof.
  revert i fr s. induction n as [|n IH]; intros i fr s.
  - simpl. unfold bind, ret. rewrite Z.add_0_r. reflexivity.
  - cbn [outer_loop Nat.add]. unfold bind at 1 2 3.
    destruct (inner' N i fr s) as [fr1 s1|e s1|]; [|reflexivity|reflexivity].
    rewrite IH. replace (i + 1 + Z.of_nat n) with (i + Z.of_nat (S n)) by lia.
    reflexivity.
Qed.

Lemma inv_initial w :
  Inv' (initial_frame funs) true (initial_frame funs) (fresh w).
Proof.
  constructor; simpl; try reflexivity.
  - apply length_replicate.
  - intros f c Hc. apply lookup_replicate in Hc as [-> Hf].
    constructor; simpl; try reflexivity.
    + discriminate.
    + exists empty_timings. split; [|reflexivity].
      apply lookup_replicate_2. assumption.
Qed.

Lemma inv_rebase base ph fr s : Inv' base ph fr s -> Inv' fr ph fr s.
Proof.
  intros [Hlen Hpass Hnc Htot Hcalls Hceq Hrec].
  constructor; try assumption.
  intros g c Hg. destruct (Hrec g c Hg) as [R1 R2 R3 R4 R5 R6 R7].
  constructor; try assumption. exists c. split; [assumption | reflexivity].
Qed.

Hypothesis order_balanced : balanced funs order.

(** After the burn-in rounds every record holds [burn_in] samples, and the
    invariant of the timed rounds holds. *)
Lemma inv_timed_phase base fr s :
  Inv' base true fr s -> 0 <= burn_in opt ->
  oIt fr = (Z.to_nat (burn_in opt) * N)%nat -> (oIt fr <= length order)%nat ->
  Inv' base false fr s.
Proof.
  intros [Hlen Hpass Hnc Htot Hcalls Hceq Hrec] Hb Hp Hle.
  constructor; try assumption; try discriminate.
  - intros _. apply Hceq. right. reflexivity.
  - intros g c Hg. destruct (Hrec g c Hg) as [R1 R2 R3 R4 R5 R6 R7].
    constructor; try assumption; try discriminate.
    + intros _. apply R4. right. reflexivity.
    + intros _.
      assert (Hg' : (g < N)%nat).
      { rewrite <- Hlen. eapply lookup_lt_Some. eassumption. }
      assert (Hn : length (times c) = Z.to_nat (burn_in opt)).
      { rewrite (R4 (or_intror eq_refl)), Hp.
        apply order_balanced; [lia | assumption]. }
      split; [lia|]. rewrite (R5 eq_refl), drop_ge by lia. reflexivity.
Qed.
End Dispatch.

(** ** The reduction *)

Section Reduction.
Variable opt : Options.

Local Abbreviation b := (Z.to_nat (burn_in opt)).

Lemma erase_burn_in_ok (ts : list duration) :
  0 <= burn_in opt -> (b <= length ts)%nat ->
  erase_burn_in opt ts = Some (drop b ts).
Proof.
  intros H0 Hb. unfold erase_burn_in.
  destruct (0 <=? burn_in opt) eqn:E1; [|apply Z.leb_gt in E1; lia].
  destruct (burn_in opt <=? Z.of_nat (length ts)) eqn:E2; [reflexivity|].
  apply Z.leb_gt in E2. lia.
Qed.

(** A record that satisfies the invariant of the timed rounds is reduced
    to the summary of its trimmed samples. *)
Lemma reduce_one_summary (c : Timings) :
  0 <= burn_in opt -> (b <= length (times c))%nat ->
  Z.of_nat (length (times c)) <= INT_MAX ->
  mean c = fsum (drop b (times c)) -> sd c = F64.zero ->
  reduce_one opt c = Some (summary (drop b (times c))).
Proof.
  intros H0 Hb Hmax Hm Hs. unfold reduce_one.
  rewrite erase_burn_in_ok by assumption.
  assert (Hlen : Z.of_nat (length (drop b (times c))) <= INT_MAX).
  { rewrite length_drop. lia. }
  destruct (drop b (times c)) as [|t ts] eqn:E.
  - rewrite Hm, Hs. reflexivity.
  - unfold summary, bessel, sum_sq_dev, arithmetic_mean, size_to_double.
    rewrite size_sub_1 by (simpl length in *; lia).
    rewrite fold_add_sq_dev, Hm, Hs. reflexivity.
Qed.

Lemma reduce_summary (out : list Timings) :
  Forall (fun c => reduce_one opt c = Some (summary (drop b (times c)))) out ->
  reduce opt out = Some (map (fun c => summary (drop b (times c))) out).
Proof.
  induction 1 as [|c out Hc _ IH]; simpl; [reflexivity|].
  rewrite Hc, IH. reflexivity.
Qed.

End Reduction.

(** ** Whole runs *)

Section Run.
Context {World Result TimePoint Exn Rng : Type}.

Local Abbreviation St := (Env World Result TimePoint Exn).

Variable steady_clock_now : World -> TimePoint * World.
Variable elapsed : TimePoint -> TimePoint -> duration.
Variable mt19937_64 : Z -> Rng.
Variable std_shuffle : list nat -> Rng -> list nat * Rng.
Variable funs : list (World -> Result * World).
Variable check : Result -> nat -> World -> option Exn * World.
Variable opt : Options.

Local Abbreviation N := (nfun funs).
Local Abbreviation b := (Z.to_nat (burn_in opt)).
Local Abbreviation order :=
  (build_order mt19937_64 std_shuffle funs opt (iterations opt + burn_in opt)).
Local Abbreviation outer' := (outer_loop steady_clock_now elapsed funs check opt order).
Local Abbreviation Inv' := (@Inv World Result TimePoint Exn elapsed funs opt order).
Local Abbreviation time' :=
  (time steady_clock_now elapsed mt19937_64 std_shuffle funs check opt).

(** [time] is the dispatch loop followed by the reduction. *)
Lemma time_eq (s : St) :
  valid_options opt = true ->
  time' s =
    match dispatch steady_clock_now elapsed funs check opt order
            (iterations opt + burn_in opt) s with
    | Done fr s' =>
        match reduce opt (output fr) with
        | Some out => Done out s'
        | None => Undefined
        end
    | Thrown e s' => Thrown e s'
    | Undefined => Undefined
    end.
Proof.
  intros Hv. unfold time. rewrite (int_add_valid _ Hv). unfold bind.
  destruct (dispatch _ _ _ _ _ _ _ s) as [fr s'| |]; try reflexivity.
  destruct (reduce opt (output fr)); reflexivity.
Qed.

Hypothesis valid : valid_options opt = true.
Hypothesis shuffle_ok : shuffle_permutes std_shuffle.

Lemma order_length :
  length order = ((b + Z.to_nat (iterations opt)) * N)%nat.
Proof.
  apply valid_options_spec in valid.
  rewrite (build_order_length _ _ _ shuffle_ok). f_equal. lia.
Qed.

(** The burn-in rounds always run to their end. *)
Lemma burn_in_phase (w : World) :
  exists fr_b s_b,
    outer' b 0 (initial_frame funs) (fresh w) = Done fr_b s_b
    /\ Inv' (initial_frame funs) true fr_b s_b
    /\ oIt fr_b = (b * N)%nat.
Proof.
  pose proof valid as Hv. apply valid_options_spec in Hv.
  pose proof (outer_loop_inv steady_clock_now elapsed funs check opt order
                (build_order_bound _ _ _ shuffle_ok _ _)
                (initial_frame funs) true b 0 (initial_frame funs) (fresh w)) as H.
  simpl in H. specialize (H ltac:(lia) (inv_initial _ _ _ _ _)).
  rewrite order_length in H. specialize (H ltac:(lia)).
  destruct (outer' b 0 (initial_frame funs) (fresh w)) as [fr_b s_b|e s'|];
    simpl in H.
  - exists fr_b, s_b. destruct H as [HI Hp]. auto.
  - destruct H as [_ H]. discriminate.
  - contradiction.
Qed.

(** The dispatch loop: burn-in rounds, then timed rounds. *)
Lemma dispatch_phases (w : World) :
  exists fr_b s_b,
    outer' b 0 (initial_frame funs) (fresh w) = Done fr_b s_b
    /\ Inv' (initial_frame funs) true fr_b s_b
    /\ oIt fr_b = (b * N)%nat
    /\ dispatch steady_clock_now elapsed funs check opt order
         (iterations opt + burn_in opt) (fresh w)
       = outer' (Z.to_nat (iterations opt)) (burn_in opt) fr_b s_b
    /\ post (outer' (Z.to_nat (iterations opt)) (burn_in opt) fr_b s_b)
         (fun fr s => Inv' fr_b false fr s /\ oIt fr = length order)
         (fun e s => thrown_by_check check e s).
Proof.
  pose proof valid as Hv. apply valid_options_spec in Hv.
  destruct (burn_in_phase w) as (fr_b & s_b & Hrun & HI & Hp).
  exists fr_b, s_b.
  split; [assumption|]. split; [assumption|]. split; [assumption|]. split.
  - unfold dispatch.
    replace (Z.to_nat (iterations opt + burn_in opt))
      with (b + Z.to_nat (iterations opt))%nat by lia.
    rewrite outer_loop_app. unfold bind. rewrite Hrun. f_equal. lia.
  - assert (HI' : Inv' fr_b false fr_b s_b).
    { apply inv_rebase with (base := initial_frame funs).
      apply inv_timed_phase; try assumption; try lia.
      - apply build_order_balanced. assumption.
      - rewrite Hp, order_length. lia. }
    pose proof (outer_loop_inv steady_clock_now elapsed funs check opt order
                  (build_order_bound _ _ _ shuffle_ok _ _)
                  fr_b false (Z.to_nat (iterations opt)) (burn_in opt) fr_b s_b) as H.
    simpl in H. specialize (H ltac:(lia) HI').
    rewrite Hp, order_length in H. specialize (H ltac:(lia)).
    destruct (outer' _ _ fr_b s_b) as [fr s|e s|]; simpl in *.
    + destruct H as [H1 H2]. split; [assumption|]. rewrite H2, order_length. lia.
    + tauto.
    + assumption.
Qed.

(** X1.  The condition of [assert(oIt == order.end())] holds: when the
    dispatch loop ends, the iterator stands at the end of the execution
    sequence, whatever the budgets skipped. *)
Lemma dispatch_reaches_end (w : World) (fr : Frame) (s : St) :
  dispatch steady_clock_now elapsed funs check opt order
    (iterations opt + burn_in opt) (fresh w) = Done fr s ->
  oIt fr = length order.
Proof.
  intros Hd.
  destruct (dispatch_phases w) as (fr_b & s_b & _ & _ & _ & Hd' & Hpost).
  rewrite <- Hd', Hd in Hpost. apply Hpost.
Qed.

(** At the end of the loop every record is ready for the reduction. *)
Lemma final_record base fr s f c :
  Inv' base false fr s -> oIt fr = length order -> output fr !! f = Some c ->
  reduce_one opt c = Some (summary (drop b (times c)))
  /\ (length (times c) <= b + Z.to_nat (iterations opt))%nat
  /\ (no_budgets opt -> length (times c) = (b + Z.to_nat (iterations opt))%nat).
Proof.
  intros HI Hp Hc. pose proof valid as Hv. apply valid_options_spec in Hv.
  assert (Hf : (f < N)%nat).
  { rewrite <- (inv_len _ _ _ _ _ _ _ _ HI). eapply lookup_lt_Some. eassumption. }
  destruct (inv_rec _ _ _ _ _ _ _ _ HI f c Hc) as [R1 R2 R3 R4 R5 R6 R7].
  rewrite Hp, take_ge in R3, R4 by lia.
  rewrite (build_order_count _ _ _ shuffle_ok _ _ _ Hf) in R3, R4.
  destruct (R6 eq_refl) as [Hb Hm].
  split; [|split].
  - apply reduce_one_summary; try assumption; lia.
  - lia.
  - intros Hnb. rewrite R4 by (left; assumption). lia.
Qed.

Lemma final_reduce base fr s :
  Inv' base false fr s -> oIt fr = length order ->
  reduce opt (output fr) = Some (map (fun c => summary (drop b (times c))) (output fr)).
Proof.
  intros HI Hp. apply reduce_summary, Forall_forall. intros c Hin.
  apply list_elem_of_lookup in Hin as [f Hc].
  eapply final_record; eassumption.
Qed.

(** What a run of [time] on a fresh log amounts to. *)
Lemma time_spec (w : World) :
  exists fr_b s_b,
    outer' b 0 (initial_frame funs) (fresh w) = Done fr_b s_b
    /\ Inv' (initial_frame funs) true fr_b s_b
    /\ oIt fr_b = (b * N)%nat
    /\ dispatch steady_clock_now elapsed funs check opt order
         (iterations opt + burn_in opt) (fresh w)
       = outer' (Z.to_nat (iterations opt)) (burn_in opt) fr_b s_b
    /\ post (time' (fresh w))
         (fun out s => exists fr,
            dispatch steady_clock_now elapsed funs check opt order
              (iterations opt + burn_in opt) (fresh w) = Done fr s
            /\ Inv' fr_b false fr s /\ oIt fr = length order
            /\ out = map (fun c => summary (drop b (times c))) (output fr))
         (fun e s => thrown_by_check check e s).
Proof.
  destruct (dispatch_phases w) as (fr_b & s_b & Hrun & HI & Hp & Hd & Hpost).
  exists fr_b, s_b.
  split; [assumption|]. split; [assumption|]. split; [assumption|].
  split; [assumption|].
  rewrite time_eq, Hd by assumption.
  destruct (outer' _ _ fr_b s_b) as [fr s|e s|] eqn:E; cbn [post] in *.
  - destruct Hpost as [HI2 Hp2]. rewrite (final_reduce _ _ _ HI2 Hp2).
    cbn [post]. exists fr. auto.
  - assumption.
  - assumption.
Qed.
(** The records at the end of the burn-in rounds. *)
Lemma burn_in_record fr_b s_b f cb :
  Inv' (initial_frame funs) true fr_b s_b -> oIt fr_b = (b * N)%nat ->
  output fr_b !! f = Some cb ->
  length (times cb) = b /\ times cb = samples elapsed f (log s_b)
  /\ mean cb = F64.zero /\ sd cb = F64.zero.
Proof.
  intros HI Hp Hc.
  assert (Hf : (f < N)%nat).
  { rewrite <- (inv_len _ _ _ _ _ _ _ _ HI). eapply lookup_lt_Some. eassumption. }
  destruct (inv_rec _ _ _ _ _ _ _ _ HI f cb Hc) as [R1 R2 R3 R4 R5 R6 R7].
  split; [|auto].
  rewrite (R4 (or_intror eq_refl)), Hp.
  apply (build_order_balanced _ _ _ shuffle_ok); [|assumption].
  rewrite order_length. lia.
Qed.

(** The records at the end of the loop: the burn-in samples, then the
    timed ones, whose sum is the running mean. *)
Lemma final_split fr_b s_b fr s f c :
  Inv' (initial_frame funs) true fr_b s_b -> oIt fr_b = (b * N)%nat ->
  Inv' fr_b false fr s -> output fr !! f = Some c ->
  exists cb,
    output fr_b !! f = Some cb /\ length (times cb) = b
    /\ times cb = samples elapsed f (log s_b)
    /\ times c = times cb ++ drop b (times c)
    /\ times c = samples elapsed f (log s).
Proof.
  intros HIb Hpb HI Hc.
  destruct (inv_rec _ _ _ _ _ _ _ _ HI f c Hc) as [R1 R2 R3 R4 R5 R6 R7].
  destruct R7 as (cb & Hcb & [k Hk]).
  destruct (burn_in_record _ _ _ _ HIb Hpb Hcb) as (Hlen & Hsam & _).
  exists cb. repeat (split; [assumption|]). split; [|assumption].
  rewrite Hk at 1. f_equal. rewrite Hk, drop_app_length'; auto.
Qed.

Lemma never_thrown e (s : St) :
  (forall r f w, fst (check r f w) = None) -> ~ thrown_by_check check e s.
Proof.
  intros Hok (r & f & l & w & _ & _ & Hc).
  specialize (Hok r f w). rewrite Hc in Hok. discriminate.
Qed.
End Run.

(** ** Reading the result of [time] *)

Section Results.
Context {World Result TimePoint Exn Rng : Type}.

Local Abbreviation St := (Env World Result TimePoint Exn).

Variable steady_clock_now : World -> TimePoint * World.
Variable elapsed : TimePoint -> TimePoint -> duration.
Variable mt19937_64 : Z -> Rng.
Variable std_shuffle : list nat -> Rng -> list nat * Rng.
Variable funs : list (World -> Result * World).
Variable check : Result -> nat -> World -> option Exn * World.
Variable opt : Options.

Lemma reduce_lookup (raw out : list Timings) (f : nat) (t : Timings) :
  reduce opt raw = Some out -> out !! f = Some t ->
  exists c, raw !! f = Some c /\ reduce_one opt c = Some t.
Proof.
  revert out f. induction raw as [|c raw IH]; intros out f Hr Ht; simpl in Hr.
  - injection Hr as <-. discriminate.
  - destruct (reduce_one opt c) as [t0|] eqn:E1; [|discriminate].
    destruct (reduce opt raw) as [ts|] eqn:E2; [|discriminate].
    injection Hr as <-. destruct f as [|f]; simpl in *.
    + injection Ht as <-. exists c. auto.
    + eapply IH; [reflexivity | eassumption].
Qed.

(** Whatever [time] returns was produced by the reduction. *)
Lemma time_done (s s' : St) (out : list Timings) :
  time steady_clock_now elapsed mt19937_64 std_shuffle funs check opt s = Done out s' ->
  exists fr, reduce opt (output fr) = Some out.
Proof.
  unfold time. destruct (int_add _ _) as [num|]; [|discriminate].
  unfold bind. destruct (dispatch _ _ _ _ _ _ _ s) as [fr s1| |]; try discriminate.
  destruct (reduce opt (output fr)) as [o|] eqn:E; simpl; [|discriminate].
  intros [= <- <-]. exists fr. assumption.
Qed.

(** Without candidates the loops do nothing. *)
Lemma outer_loop_no_funs order n i fr (s : St) :
  funs = [] ->
  outer_loop steady_clock_now elapsed funs check opt order n i fr s = Done fr s.
Proof.
  intros ->. revert i fr. induction n as [|n IH]; intros i fr; [reflexivity|].
  cbn [outer_loop]. unfold bind. simpl. apply IH.
Qed.
End Results.

(** ** The shuffle of the concrete instance *)

Lemma draw_permutes (n : nat) (l : list nat) (g : Sample.Rng) :
  fst (Sample.draw n l g) ≡ₚ l.
Proof.
  revert l g. induction n as [|n IH]; intros l g; simpl; [reflexivity|].
  destruct (l !! _) as [x|] eqn:E; [|reflexivity].
  specialize (IH (delete (Z.to_nat ((Sample.next_rng g / 2 ^ 33) mod Z.of_nat (length l))) l)
                 (Sample.next_rng g)).
  destruct (Sample.draw n _ _) as [rest g'']. simpl in *.
  rewrite IH. symmetry. apply delete_Permutation. assumption.
Qed.

Lemma sample_shuffle_permutes : shuffle_permutes Sample.shuffle.
Proof. intros l g. apply draw_permutes. Qed.

Lemma summary_times (ts : list duration) : times (summary ts) = ts.
Proof. destruct ts; reflexivity. Qed.

(** ** The claims *)

Section Claims.
Context {World Result TimePoint Exn Rng : Type}.

Local Abbreviation St := (Env World Result TimePoint Exn).

Variable steady_clock_now : World -> TimePoint * World.
Variable elapsed : TimePoint -> TimePoint -> duration.
Variable mt19937_64 : Z -> Rng.
Variable std_shuffle : list nat -> Rng -> list nat * Rng.
Variable funs : list (World -> Result * World).
Variable check : Result -> nat -> World -> option Exn * World.
Variable opt : Options.

Local Abbreviation N := (nfun funs).
Local Abbreviation b := (Z.to_nat (burn_in opt)).
Local Abbreviation num := (iterations opt + burn_in opt).
Local Abbreviation order := (build_order mt19937_64 std_shuffle funs opt num).
Local Abbreviation body' := (body steady_clock_now elapsed funs check opt).
Local Abbreviation outer' := (outer_loop steady_clock_now elapsed funs check opt order).
Local Abbreviation dispatch' := (dispatch steady_clock_now elapsed funs check opt order num).
Local Abbreviation time' :=
  (time steady_clock_now elapsed mt19937_64 std_shuffle funs check opt).

(** C4.  The schedule has [N * (iterations + burn_in)] entries.  Its [k]-th
    block of [N] entries is the shuffle of [0 .. N-1] drawn from the one
    generator seeded with [seed] and advanced by the [k] shuffles before
    it, and is a permutation of [0 .. N-1].  The schedule depends on the
    seed, on [N] and on [iterations + burn_in] only; the candidates called
    in a run are called in the order of the schedule, all of them when no
    budget is set. *)
Theorem schedule_is_blocks (w : World) :
  valid_options opt = true -> shuffle_permutes std_shuffle ->
  Z.of_nat (length order) = Z.of_nat N * (iterations opt + burn_in opt)
  /\ (forall k, (k < Z.to_nat num)%nat ->
        take N (drop (k * N) order) = block std_shuffle N (mt19937_64 (seed opt)) k
        /\ take N (drop (k * N) order) ≡ₚ seq 0 N)
  /\ (forall (funs' : list (World -> Result * World)) (opt' : Options),
        length funs' = length funs -> seed opt' = seed opt ->
        iterations opt' + burn_in opt' = num ->
        build_order mt19937_64 std_shuffle funs' opt'
          (iterations opt' + burn_in opt') = order)
  /\ (forall out s, time' (fresh w) = Done out s ->
        call_order (log s) `sublist_of` order
        /\ (no_budgets opt -> call_order (log s) = order)).
Proof.
  intros Hv Hs. pose proof Hv as Hv'. apply valid_options_spec in Hv'.
  split; [|split; [|split]].
  - rewrite (build_order_length _ _ _ Hs), Nat2Z.inj_mul, Z2Nat.id by lia.
    apply Z.mul_comm.
  - intros k Hk.
    assert (E : take N (drop (k * N) order)
                = block std_shuffle N (mt19937_64 (seed opt)) k).
    { rewrite build_order_eq.
      apply blocks_nth; [apply blocks_of_perm; assumption|].
      apply blocks_of_lookup. assumption. }
    split; [exact E|]. rewrite E. apply Hs.
  - intros funs' opt' Hn Hseed Hnum. rewrite !build_order_eq.
    unfold nfun. rewrite Hn, Hseed, Hnum. reflexivity.
  - intros out s Hrun.
    destruct (time_spec steady_clock_now elapsed mt19937_64 std_shuffle funs check opt
                Hv Hs w) as (fr_b & s_b & _ & _ & _ & _ & Hpost).
    rewrite Hrun in Hpost. simpl in Hpost.
    destruct Hpost as (fr & _ & HI & Hp & _).
    pose proof (inv_calls _ _ _ _ _ _ _ _ HI) as H1.
    pose proof (inv_calls_eq _ _ _ _ _ _ _ _ HI) as H2.
    rewrite Hp, take_ge in H1, H2 by lia.
    split; [assumption|]. intros Hnb. apply H2. left. assumption.
Qed.
(** C1.  A schedule entry of a timed round ([burn_in <= i]) for candidate
    [f].  If [max_time_per_function] is set and the running accumulator of
    [f] is [>=] it, or [max_time_total] is set and the global accumulator is
    [>=] it, the entry is skipped: frame, world and log are unchanged.
    Otherwise the clock is read, [f] is called, the clock is read again and
    then [check] is called on the result and [f]; unless [check] throws, the
    elapsed duration is appended to the samples of [f] and added to its
    accumulator, and to the global accumulator when [max_time_total] is
    set.  An accumulator that is the sum of the recorded timed durations
    stays so. *)
Theorem timed_round_entry (sched : list nat) (i : Z) (fr : Frame) (s : St)
    (f : nat) (c : Timings) (fn : World -> Result * World) :
  burn_in opt <= i ->
  sched !! oIt fr = Some f -> output fr !! f = Some c -> funs !! f = Some fn ->
  (budget_exhausted opt c fr -> body' sched i fr s = Done fr s)
  /\ (~ budget_exhausted opt c fr ->
      forall t1 w1 r w2 t2 w3 x w4,
        steady_clock_now (world s) = (t1, w1) -> fn w1 = (r, w2) ->
        steady_clock_now w2 = (t2, w3) -> check r f w3 = (x, w4) ->
        let d := elapsed t1 t2 in
        let s' := {| world := w4;
                     log := EvCheck r f x :: EvNow t2 :: EvCall f r :: EvNow t1 :: log s |} in
        body' sched i fr s =
          match x with
          | Some e => Thrown e s'
          | None =>
              Done {| output := <[f := {| times := times c ++ [d];
                                           mean := F64.add (mean c) d;
                                           sd := sd c |}]> (output fr);
                      total_time := match max_time_total opt with
                                    | Some _ => F64.add (total_time fr) d
                                    | None => total_time fr
                                    end;
                      oIt := oIt fr |} s'
          end)
  /\ ((b <= length (times c))%nat -> mean c = fsum (drop b (times c)) ->
      forall d, F64.add (mean c) d = fsum (drop b (times c ++ [d]))).
Proof.
  intros Hi Ho Hc Hf.
  pose proof (body_spec steady_clock_now elapsed funs check opt sched
                i fr s f c fn Ho Hc Hf) as Hb.
  apply Z.leb_le in Hi. rewrite Hi in Hb.
  split; [|split].
  - intros Hex. apply skip_exhausted in Hex. rewrite Hex in Hb. exact Hb.
  - intros Hex t1 w1 r w2 t2 w3 x w4 E1 E2 E3 E4.
    destruct (skip_per_function opt c || skip_total opt fr) eqn:Es.
    { apply skip_exhausted in Es. contradiction. }
    rewrite Hb. unfold timed_step, timed_call. rewrite E1, E2, E3. simpl.
    rewrite E4. destruct x; reflexivity.
  - intros Hlen Hm d. rewrite drop_app_le, fsum_snoc, Hm by assumption.
    reflexivity.
Qed.

(** C5.  A schedule entry of a burn-in round ([i < burn_in]) for candidate
    [f]: whatever the budgets, the clock is read, [f] is called and the
    clock is read again; the duration is appended to the samples of [f];
    [check] is not called, and neither accumulator changes.  In a run the
    burn-in rounds end with no call of [check], both accumulators at zero
    and [burn_in] samples per candidate, and these samples are not among
    the reported ones: the samples measured for [f] in the run are its
    burn-in samples followed by its reported samples. *)
Theorem burn_in_round_entry :
  (forall (sched : list nat) (i : Z) (fr : Frame) (s : St)
          (f : nat) (c : Timings) (fn : World -> Result * World),
      i < burn_in opt ->
      sched !! oIt fr = Some f -> output fr !! f = Some c -> funs !! f = Some fn ->
      forall t1 w1 r w2 t2 w3,
        steady_clock_now (world s) = (t1, w1) -> fn w1 = (r, w2) ->
        steady_clock_now w2 = (t2, w3) ->
        body' sched i fr s =
          Done {| output := <[f := {| times := times c ++ [elapsed t1 t2];
                                       mean := mean c;
                                       sd := sd c |}]> (output fr);
                  total_time := total_time fr;
                  oIt := oIt fr |}
               {| world := w3;
                  log := EvNow t2 :: EvCall f r :: EvNow t1 :: log s |})
  /\ (forall w : World,
        valid_options opt = true -> shuffle_permutes std_shuffle ->
        exists fr_b s_b,
          outer' b 0 (initial_frame funs) (fresh w) = Done fr_b s_b
          /\ dispatch' (fresh w)
             = outer' (Z.to_nat (iterations opt)) (burn_in opt) fr_b s_b
          /\ count_checks (log s_b) = 0%nat
          /\ total_time fr_b = F64.zero
          /\ call_order (log s_b) = take (b * N) order
          /\ (forall f cb, output fr_b !! f = Some cb -> mean cb = F64.zero)
          /\ (forall out s, time' (fresh w) = Done out s ->
                forall f t, out !! f = Some t ->
                  exists cb, output fr_b !! f = Some cb
                    /\ length (times cb) = b
                    /\ times cb = samples elapsed f (log s_b)
                    /\ samples elapsed f (log s) = times cb ++ times t)).
Proof.
  split.
  - intros sched i fr s f c fn Hi Ho Hc Hf t1 w1 r w2 t2 w3 E1 E2 E3.
    rewrite (body_spec steady_clock_now elapsed funs check opt sched
               i fr s f c fn Ho Hc Hf).
    apply Z.leb_gt in Hi. rewrite Hi.
    unfold burn_in_step, timed_call. rewrite E1, E2, E3. reflexivity.
  - intros w Hv Hs.
    destruct (time_spec steady_clock_now elapsed mt19937_64 std_shuffle funs check opt
                Hv Hs w) as (fr_b & s_b & Hrun & HIb & Hpb & Hd & Hpost).
    exists fr_b, s_b. split; [assumption|]. split; [assumption|].
    split; [apply (inv_nochecks _ _ _ _ _ _ _ _ HIb); reflexivity|].
    split; [apply (inv_total _ _ _ _ _ _ _ _ HIb); reflexivity|].
    split.
    { rewrite <- Hpb. apply (inv_calls_eq _ _ _ _ _ _ _ _ HIb). right. reflexivity. }
    split.
    { intros f cb Hcb. eapply burn_in_record; eassumption. }
    intros out s Hdone f t Ht. rewrite Hdone in Hpost. simpl in Hpost.
    destruct Hpost as (fr & _ & HI & Hp & ->).
    apply list_lookup_fmap_Some in Ht as (c & -> & Hc).
    destruct (final_split _ _ _ _ _ Hv Hs fr_b s_b fr s f c HIb Hpb HI Hc)
      as (cb & Hcb & Hlen & Hsam & Hsplit & Hall).
    exists cb. repeat (split; [assumption|]).
    rewrite summary_times, <- Hall. assumption.
Qed.
(** What the reduction computes.  For a candidate whose reported sample
    sequence is not empty, the [mean] field is the sum of the sequence
    divided by its length, and the [sd] field is the sum of the squared
    deviations from that mean divided by the length minus one, all in the
    arithmetic of [double] and in the order of the sequence.  No square
    root is taken: the [sd] field holds the sample variance (see
    [sd_field_is_variance]). *)
Theorem reported_statistics (w : World) (out : list Timings) (s : St)
    (f : nat) (t : Timings) :
  valid_options opt = true -> shuffle_permutes std_shuffle ->
  time' (fresh w) = Done out s -> out !! f = Some t -> times t <> [] ->
  mean t = arithmetic_mean (times t) /\ sd t = bessel (times t).
Proof.
  intros Hv Hs Hdone Ht Hne.
  destruct (time_spec steady_clock_now elapsed mt19937_64 std_shuffle funs check opt
              Hv Hs w) as (fr_b & s_b & _ & _ & _ & _ & Hpost).
  rewrite Hdone in Hpost. simpl in Hpost.
  destruct Hpost as (fr & _ & _ & _ & ->).
  apply list_lookup_fmap_Some in Ht as (c & -> & _).
  rewrite summary_times in *.
  destruct (drop b (times c)); [contradiction|]. split; reflexivity.
Qed.

(** C3.  The burn-in rounds always execute every candidate [burn_in]
    times.  The samples reported for a candidate are those measured after
    its burn-in samples, the reported statistics are computed from the
    reported samples alone, and without budgets there are exactly
    [iterations] reported samples. *)
Theorem no_budget_sample_count (w : World) :
  valid_options opt = true -> shuffle_permutes std_shuffle ->
  exists fr_b s_b,
    outer' b 0 (initial_frame funs) (fresh w) = Done fr_b s_b
    /\ dispatch' (fresh w)
       = outer' (Z.to_nat (iterations opt)) (burn_in opt) fr_b s_b
    /\ (forall f, (f < N)%nat ->
          count_occ Nat.eq_dec (call_order (log s_b)) f = b)
    /\ forall out s, time' (fresh w) = Done out s ->
         forall f t, out !! f = Some t ->
           (no_budgets opt -> Z.of_nat (length (times t)) = iterations opt)
           /\ (exists cb, output fr_b !! f = Some cb
                 /\ length (times cb) = b
                 /\ times cb = samples elapsed f (log s_b)
                 /\ samples elapsed f (log s) = times cb ++ times t)
           /\ t = summary (times t).
Proof.
  intros Hv Hs. pose proof Hv as Hv'. apply valid_options_spec in Hv'.
  destruct (time_spec steady_clock_now elapsed mt19937_64 std_shuffle funs check opt
              Hv Hs w) as (fr_b & s_b & Hrun & HIb & Hpb & Hd & Hpost).
  exists fr_b, s_b. split; [assumption|]. split; [assumption|]. split.
  - intros f Hf.
    rewrite (inv_calls_eq _ _ _ _ _ _ _ _ HIb) by (right; reflexivity).
    rewrite Hpb. apply (build_order_balanced _ _ _ Hs); [|assumption].
    rewrite (order_length mt19937_64 std_shuffle funs opt Hv Hs). lia.
  - intros out s Hdone f t Ht. rewrite Hdone in Hpost. simpl in Hpost.
    destruct Hpost as (fr & _ & HI & Hp & ->).
    apply list_lookup_fmap_Some in Ht as (c & -> & Hc).
    destruct (final_split _ _ _ _ _ Hv Hs fr_b s_b fr s f c HIb Hpb HI Hc)
      as (cb & Hcb & Hlen & Hsam & Hsplit & Hall).
    destruct (final_record _ _ _ _ _ Hv Hs _ _ _ _ _ HI Hp Hc)
      as (_ & _ & Heq).
    rewrite summary_times. split; [|split].
    + intros Hnb. rewrite length_drop, (Heq Hnb). lia.
    + exists cb. repeat (split; [assumption|]). rewrite <- Hall. assumption.
    + reflexivity.
Qed.

(** C6.  A run either returns one record per candidate, in the order of
    the candidates, the record at index [f] holding the durations measured
    for the calls of candidate [f] without the burn-in ones, or it leaves
    with the exception thrown by [check]; it returns when [check] never
    throws.  Without candidates the result is the empty list. *)
Theorem output_is_aligned :
  (forall w : World,
      valid_options opt = true -> shuffle_permutes std_shuffle ->
      match time' (fresh w) with
      | Done out s =>
          length out = N
          /\ forall f, (f < N)%nat ->
               exists t, out !! f = Some t
                 /\ times t = drop b (samples elapsed f (log s))
      | Thrown e s => thrown_by_check check e s
      | Undefined => False
      end
      /\ ((forall r f w', fst (check r f w') = None) ->
          exists out s, time' (fresh w) = Done out s))
  /\ (forall s : St, funs = [] -> in_int num = true -> time' s = Done [] s).
Proof.
  split.
  - intros w Hv Hs.
    destruct (time_spec steady_clock_now elapsed mt19937_64 std_shuffle funs check opt
                Hv Hs w) as (fr_b & s_b & _ & _ & _ & _ & Hpost).
    destruct (time' (fresh w)) as [out s|e s|]; simpl in Hpost.
    + split; [|eauto]. destruct Hpost as (fr & _ & HI & Hp & ->).
      rewrite length_map. split; [apply (inv_len _ _ _ _ _ _ _ _ HI)|].
      intros f Hf.
      destruct (lookup_lt_is_Some_2 (output fr) f) as [c Hc].
      { rewrite (inv_len _ _ _ _ _ _ _ _ HI). assumption. }
      exists (summary (drop b (times c))). rewrite list_lookup_fmap, Hc.
      split; [reflexivity|]. rewrite summary_times.
      rewrite (ri_samples _ _ _ _ _ _ _ _ _ (inv_rec _ _ _ _ _ _ _ _ HI f c Hc)).
      reflexivity.
    + split; [assumption|]. intros Hok. exfalso.
      eapply never_thrown; eassumption.
    + contradiction.
  - intros s Hf Hin. unfold time, int_add. rewrite Hin. unfold bind, dispatch.
    rewrite outer_loop_no_funs by assumption.
    unfold initial_frame, nfun. rewrite Hf. reflexivity.
Qed.

(** C7.  A candidate whose reported sample sequence is empty is reported
    with mean zero and standard deviation zero, in a run that returns. *)
Theorem empty_samples_zero_statistics (w : World) (out : list Timings) (s : St)
    (f : nat) (t : Timings) :
  valid_options opt = true -> shuffle_permutes std_shuffle ->
  time' (fresh w) = Done out s -> out !! f = Some t -> times t = [] ->
  mean t = F64.zero /\ sd t = F64.zero.
Proof.
  intros Hv Hs Hdone Ht Hnil.
  destruct (time_spec steady_clock_now elapsed mt19937_64 std_shuffle funs check opt
              Hv Hs w) as (fr_b & s_b & _ & _ & _ & _ & Hpost).
  rewrite Hdone in Hpost. simpl in Hpost.
  destruct Hpost as (fr & _ & _ & _ & ->).
  apply list_lookup_fmap_Some in Ht as (c & -> & _).
  rewrite summary_times in Hnil. rewrite Hnil. split; reflexivity.
Qed.

(** C8.  A candidate whose reported sample sequence has one entry is
    reported with the standard deviation [acc / 0] for the accumulated
    squared deviation [acc]: a value that is not finite.  The run returns
    it as it is. *)
Theorem single_sample_sd_not_finite (s0 s : St) (out : list Timings)
    (f : nat) (t : Timings) :
  time' s0 = Done out s -> out !! f = Some t -> length (times t) = 1%nat ->
  (exists acc, sd t = F64.div acc (F64.of_Z 0))
  /\ F64.is_finite (sd t) = false.
Proof.
  intros Hdone Ht Hone.
  destruct (time_done _ _ _ _ _ _ _ _ _ _ Hdone) as [fr Hred].
  destruct (reduce_lookup _ _ _ _ _ Hred Ht) as (c & _ & Hone').
  unfold reduce_one in Hone'.
  destruct (erase_burn_in opt (times c)) as [ts|]; [|discriminate].
  destruct ts as [|x ts]; injection Hone' as <-; simpl in Hone; [discriminate|].
  destruct ts; [|discriminate]. simpl.
  split; [eexists; reflexivity|]. apply div_by_zero_not_finite.
Qed.

(** C9.  A run that returns has seen no call of [check] throw.  When a
    call of [check] throws, the run leaves with that exception and returns
    no result; the throwing call is the last event of the run and the only
    call of [check] that threw. *)
Theorem check_failure_propagates (w : World) :
  valid_options opt = true -> shuffle_permutes std_shuffle ->
  match time' (fresh w) with
  | Done _ s => count_failed (log s) = 0%nat
  | Thrown e s =>
      exists r f l w',
        log s = EvCheck r f (Some e) :: l /\ count_failed l = 0%nat
        /\ check r f w' = (Some e, world s)
  | Undefined => False
  end.
Proof.
  intros Hv Hs.
  destruct (time_spec steady_clock_now elapsed mt19937_64 std_shuffle funs check opt
              Hv Hs w) as (fr_b & s_b & _ & _ & _ & _ & Hpost).
  destruct (time' (fresh w)) as [out s|e s|]; simpl in Hpost.
  - destruct Hpost as (fr & _ & HI & _). apply (inv_passed _ _ _ _ _ _ _ _ HI).
  - exact Hpost.
  - contradiction.
Qed.

(** C10.  With [iterations >= 0] and [burn_in >= 0], the burn-in rounds
    leave exactly [burn_in] samples in every record, whatever the budgets;
    when the loop ends every record holds at least [burn_in] samples, the
    first [burn_in] of them being those burn-in samples, so that the
    erasure is within bounds, removes only them, and the reduction is
    defined. *)
Theorem burn_in_erase_in_bounds (w : World) :
  0 <= iterations opt -> 0 <= burn_in opt ->
  iterations opt + burn_in opt <= INT_MAX ->
  shuffle_permutes std_shuffle ->
  exists fr_b s_b,
    outer' b 0 (initial_frame funs) (fresh w) = Done fr_b s_b
    /\ dispatch' (fresh w)
       = outer' (Z.to_nat (iterations opt)) (burn_in opt) fr_b s_b
    /\ (forall f, (f < N)%nat ->
          exists cb, output fr_b !! f = Some cb
            /\ length (times cb) = b
            /\ times cb = samples elapsed f (log s_b))
    /\ forall fr s, dispatch' (fresh w) = Done fr s ->
         (forall f c, output fr !! f = Some c ->
            exists cb, output fr_b !! f = Some cb
              /\ (b <= length (times c))%nat
              /\ take b (times c) = times cb
              /\ erase_burn_in opt (times c) = Some (drop b (times c)))
         /\ reduce opt (output fr) <> None.
Proof.
  intros H1 H2 H3 Hs.
  assert (Hv : valid_options opt = true) by (apply valid_options_spec; auto).
  destruct (dispatch_phases steady_clock_now elapsed mt19937_64 std_shuffle funs check
              opt Hv Hs w) as (fr_b & s_b & Hrun & HIb & Hpb & Hd & Hpost).
  exists fr_b, s_b. split; [assumption|]. split; [assumption|]. split.
  - intros f Hf.
    destruct (lookup_lt_is_Some_2 (output fr_b) f) as [cb Hcb].
    { rewrite (inv_len _ _ _ _ _ _ _ _ HIb). assumption. }
    exists cb. split; [assumption|].
    destruct (burn_in_record _ _ _ _ _ Hv Hs fr_b s_b f cb HIb Hpb Hcb)
      as (Hlen & Hsam & _).
    auto.
  - intros fr s Hdone. rewrite Hd in Hdone. rewrite Hdone in Hpost. simpl in Hpost.
    destruct Hpost as [HI Hp]. split.
    + intros f c Hc.
      destruct (final_split _ _ _ _ _ Hv Hs fr_b s_b fr s f c HIb Hpb HI Hc)
        as (cb & Hcb & Hlen & Hsam & Hsplit & Hall).
      assert (Hb : (b <= length (times c))%nat).
      { rewrite Hsplit, length_app. lia. }
      exists cb. split; [assumption|]. split; [assumption|]. split.
      * rewrite Hsplit, take_app_length'; auto.
      * apply erase_burn_in_ok; assumption.
    + rewrite (final_reduce _ _ _ _ _ Hv Hs _ _ _ HI Hp).
      discriminate.
Qed.
End Claims.

Lemma schedule_is_blocks_witness :
  Z.of_nat (length (Sample.order_of default_options)) = 3 * 11
  /\ take 3 (drop (2 * 3) (Sample.order_of default_options)) ≡ₚ [0; 1; 2]%nat.
Proof.
  pose proof (schedule_is_blocks Sample.steady_clock_now Sample.elapsed Sample.seed_rng
                Sample.shuffle Sample.funs Sample.check default_options 0
                eq_refl sample_shuffle_permutes) as (H1 & H2 & _).
  split; [exact H1|]. apply (H2 2%nat). simpl. lia.
Defined.

(** ** The scenarios of [tests/src/eztimer.cpp] on the concrete instance *)

Example test_basic :
  Sample.sizes (Sample.run Sample.funs default_options) = Some [10; 10; 10]%nat.
Proof. vm_compute. reflexivity. Qed.

Example test_cap_per_function :
  Sample.sizes (Sample.run Sample.funs (Sample.cap_per_function 45))
  = Some [5; 3; 2]%nat.
Proof. vm_compute. reflexivity. Qed.

Example test_cap_total :
  Sample.sizes (Sample.run Sample.funs (Sample.cap_total 40)) = Some [1; 0; 1]%nat.
Proof. vm_compute. reflexivity. Qed.

(** A negative [iterations] makes the erasure leave the vector. *)
Example negative_iterations_undefined :
  Sample.run Sample.funs (Sample.with_rounds (-1) 2) = Undefined.
Proof. vm_compute. reflexivity. Qed.

(** ** The claims on the concrete instance *)

(** Evaluates the run named by [E : Sample.run _ _ = Done out s]. *)
Ltac evaluate_run E out s :=
  let E' := fresh "E" in
  pose proof E as E'; vm_compute in E';
  match type of E' with
  | Done _ _ = Done _ _ =>
      let H1 := fresh in let H2 := fresh in
      injection E' as H1 H2; subst out; subst s
  | _ => discriminate E'
  end.

Lemma timed_round_entry_witness :
  let opt := Sample.cap_per_function 45 in
  let c := {| times := [Sample.milliseconds 10]; mean := F64.zero; sd := F64.zero |} in
  let fr := {| output := [c]; total_time := F64.zero; oIt := 0 |} in
  body Sample.steady_clock_now Sample.elapsed Sample.funs Sample.check opt
    [0%nat] 1 fr (fresh 0)
  = Done {| output := [{| times := [Sample.milliseconds 10; Sample.elapsed 0 10000000];
                          mean := F64.add F64.zero (Sample.elapsed 0 10000000);
                          sd := F64.zero |}];
            total_time := F64.zero;
            oIt := 0 |}
         {| world := 10000000;
            log := [EvCheck 0 0%nat None; EvNow 10000000; EvCall 0%nat 0; EvNow 0] |}.
Proof.
  intros opt c fr.
  assert (Hi : burn_in opt <= 1) by (simpl; lia).
  assert (Hfree : ~ budget_exhausted opt c fr).
  { intros [(cap & E & Hge)|(cap & E & Hge)];
      [injection E as <-; vm_compute in Hge | ]; discriminate. }
  destruct (timed_round_entry Sample.steady_clock_now Sample.elapsed Sample.funs
              Sample.check opt [0%nat] 1 fr (fresh 0) 0%nat c (Sample.sleeper 10 0)
              Hi eq_refl eq_refl eq_refl) as (_ & H & _).
  exact (H Hfree 0 0 0 10000000 10000000 10000000 None 10000000
           eq_refl eq_refl eq_refl eq_refl).
Defined.

Lemma burn_in_round_entry_witness :
  let opt := Sample.cap_per_function 0 in
  let fr := {| output := [empty_timings]; total_time := F64.zero; oIt := 0 |} in
  body Sample.steady_clock_now Sample.elapsed Sample.funs Sample.check opt
    [0%nat] 0 fr (fresh 0)
  = Done {| output := [{| times := [Sample.elapsed 0 10000000];
                          mean := F64.zero;
                          sd := F64.zero |}];
            total_time := F64.zero;
            oIt := 0 |}
         {| world := 10000000;
            log := [EvNow 10000000; EvCall 0%nat 0; EvNow 0] |}.
Proof.
  intros opt fr.
  destruct (burn_in_round_entry Sample.steady_clock_now Sample.elapsed Sample.seed_rng
              Sample.shuffle Sample.funs Sample.check opt) as [H _].
  assert (Hi : 0 < burn_in opt) by (simpl; lia).
  exact (H [0%nat] 0 fr (fresh 0) 0%nat empty_timings (Sample.sleeper 10 0)
           Hi eq_refl eq_refl eq_refl 0 0 0 10000000 10000000 10000000
           eq_refl eq_refl eq_refl).
Defined.

Lemma reported_statistics_witness :
  exists out s t,
    Sample.run Sample.funs (Sample.with_rounds 3 1) = Done out s
    /\ out !! 2%nat = Some t
    /\ length (times t) = 3%nat
    /\ mean t = arithmetic_mean (times t) /\ sd t = bessel (times t).
Proof.
  destruct (Sample.run Sample.funs (Sample.with_rounds 3 1)) as [out s|e s|] eqn:E;
    [|vm_compute in E; discriminate..].
  evaluate_run E out s.
  eexists _, _, _. split; [reflexivity|]. split; [reflexivity|]. split; [reflexivity|].
  apply (reported_statistics Sample.steady_clock_now Sample.elapsed Sample.seed_rng
           Sample.shuffle Sample.funs Sample.check (Sample.with_rounds 3 1)
           0 _ _ 2%nat _ eq_refl sample_shuffle_permutes E eq_refl).
  discriminate.
Defined.

(** C2.  The documentation of [Timings::sd] promises the standard deviation
    of [times], in seconds, and the mean is reported as documented; but the
    reduction divides the sum of squared deviations by count - 1 and takes no
    square root, so the [sd] field is the sample variance, in seconds
    squared.  A candidate with the timed samples 2 s and 4 s is reported with
    mean 3 and [sd] 2, whose square root, the standard deviation, is not 2;
    with the samples doubled to 4 s and 8 s the mean doubles to 6 while [sd]
    is multiplied by four, 8. *)
Theorem sd_field_is_variance :
  exists out s t out' s' t',
    Sample.run [Sample.doubling 1] (Sample.with_rounds 2 1) = Done out s
    /\ out = [t]
    /\ times t = [F64.of_Z 2; F64.of_Z 4]
    /\ mean t = F64.of_Z 3
    /\ sd t = F64.of_Z 2
    /\ sd t = bessel (times t)
    /\ F64.sqrt (bessel (times t)) <> sd t
    /\ Sample.run [Sample.doubling 2] (Sample.with_rounds 2 1) = Done out' s'
    /\ out' = [t']
    /\ times t' = [F64.of_Z 4; F64.of_Z 8]
    /\ mean t' = F64.of_Z 6
    /\ sd t' = F64.of_Z 8.
Proof.
  eexists _, _, _, _, _, _.
  split; [vm_compute; reflexivity|].
  split; [reflexivity|].
  split; [vm_compute; reflexivity|].
  split; [vm_compute; reflexivity|].
  split; [vm_compute; reflexivity|].
  split; [vm_compute; reflexivity|].
  split; [vm_compute; discriminate|].
  split; [vm_compute; reflexivity|].
  split; [reflexivity|].
  split; [vm_compute; reflexivity|].
  split; vm_compute; reflexivity.
Qed.

Lemma no_budget_sample_count_witness :
  exists out s t,
    Sample.run Sample.funs default_options = Done out s
    /\ out !! 1%nat = Some t
    /\ Z.of_nat (length (times t)) = 10.
Proof.
  destruct (Sample.run Sample.funs default_options) as [out s|e s|] eqn:E;
    [|vm_compute in E; discriminate..].
  destruct (no_budget_sample_count Sample.steady_clock_now Sample.elapsed
              Sample.seed_rng Sample.shuffle Sample.funs Sample.check default_options
              0 eq_refl sample_shuffle_permutes) as (fr_b & s_b & _ & _ & _ & H).
  specialize (H out s E 1%nat).
  evaluate_run E out s.
  eexists _, _, _. split; [reflexivity|]. split; [reflexivity|].
  destruct (H _ eq_refl) as (Hn & _).
  exact (Hn (conj eq_refl eq_refl)).
Defined.

Lemma output_is_aligned_witness :
  (exists out s,
     time Sample.steady_clock_now Sample.elapsed Sample.seed_rng Sample.shuffle
       Sample.funs Sample.accept (Sample.cap_per_function 45) (fresh 0) = Done out s
     /\ length out = 3%nat)
  /\ Sample.run [] default_options = Done [] (fresh 0).
Proof.
  split.
  - destruct (output_is_aligned Sample.steady_clock_now Sample.elapsed Sample.seed_rng
                Sample.shuffle Sample.funs Sample.accept (Sample.cap_per_function 45))
      as [H _].
    destruct (H 0 eq_refl sample_shuffle_permutes) as [Hout Hret].
    destruct Hret as (out & s & E); [reflexivity|].
    rewrite E in Hout. destruct Hout as [Hlen _].
    exists out, s. split; [exact E | exact Hlen].
  - destruct (output_is_aligned Sample.steady_clock_now Sample.elapsed Sample.seed_rng
                Sample.shuffle [] Sample.check default_options) as [_ H].
    exact (H (fresh 0) eq_refl eq_refl).
Defined.

Lemma empty_samples_zero_statistics_witness :
  exists out s t,
    Sample.run Sample.funs (Sample.cap_total 40) = Done out s
    /\ out !! 1%nat = Some t /\ times t = []
    /\ mean t = F64.zero /\ sd t = F64.zero.
Proof.
  destruct (Sample.run Sample.funs (Sample.cap_total 40)) as [out s|e s|] eqn:E;
    [|vm_compute in E; discriminate..].
  evaluate_run E out s.
  eexists _, _, _. split; [reflexivity|]. split; [reflexivity|]. split; [reflexivity|].
  exact (empty_samples_zero_statistics Sample.steady_clock_now Sample.elapsed
           Sample.seed_rng Sample.shuffle Sample.funs Sample.check (Sample.cap_total 40)
           0 _ _ 1%nat _ eq_refl sample_shuffle_permutes E eq_refl eq_refl).
Defined.

Lemma single_sample_sd_not_finite_witness :
  exists out s t,
    Sample.run Sample.funs (Sample.with_rounds 1 1) = Done out s
    /\ out !! 0%nat = Some t /\ length (times t) = 1%nat
    /\ F64.is_finite (sd t) = false.
Proof.
  destruct (Sample.run Sample.funs (Sample.with_rounds 1 1)) as [out s|e s|] eqn:E;
    [|vm_compute in E; discriminate..].
  evaluate_run E out s.
  eexists _, _, _. split; [reflexivity|]. split; [reflexivity|]. split; [reflexivity|].
  exact (proj2 (single_sample_sd_not_finite Sample.steady_clock_now Sample.elapsed
                  Sample.seed_rng Sample.shuffle Sample.funs Sample.check
                  (Sample.with_rounds 1 1) (fresh 0) _ _ 0%nat _ E eq_refl eq_refl)).
Defined.

Lemma check_failure_propagates_witness :
  exists e s r f l,
    Sample.run Sample.wrong_funs (Sample.with_rounds 2 1) = Thrown e s
    /\ log s = EvCheck r f (Some e) :: l /\ count_failed l = 0%nat.
Proof.
  pose proof (check_failure_propagates Sample.steady_clock_now Sample.elapsed
                Sample.seed_rng Sample.shuffle Sample.wrong_funs Sample.check
                (Sample.with_rounds 2 1) 0 eq_refl sample_shuffle_permutes) as H.
  revert H.
  match goal with
  | |- match ?run with _ => _ end -> _ => destruct run as [out s|e s|] eqn:E
  end; intros H.
  - vm_compute in E. discriminate.
  - destruct H as (r & f & l & w' & Hl & Hc & _).
    exists e, s, r, f, l. split; [exact E|]. split; assumption.
  - contradiction.
Defined.

Lemma burn_in_erase_in_bounds_witness :
  exists fr s,
    dispatch Sample.steady_clock_now Sample.elapsed Sample.funs Sample.check
      default_options (Sample.order_of default_options)
      (iterations default_options + burn_in default_options) (fresh 0) = Done fr s
    /\ Forall (fun c => (1 <= length (times c))%nat) (output fr)
    /\ reduce default_options (output fr) <> None.
Proof.
  assert (H1 : 0 <= iterations default_options) by (simpl; lia).
  assert (H2 : 0 <= burn_in default_options) by (simpl; lia).
  assert (H3 : iterations default_options + burn_in default_options <= INT_MAX)
    by (unfold INT_MAX; simpl; lia).
  destruct (burn_in_erase_in_bounds Sample.steady_clock_now Sample.elapsed
              Sample.seed_rng Sample.shuffle Sample.funs Sample.check default_options
              0 H1 H2 H3 sample_shuffle_permutes) as (fr_b & s_b & _ & _ & _ & H).
  destruct (dispatch Sample.steady_clock_now Sample.elapsed Sample.funs Sample.check
              default_options (Sample.order_of default_options)
              (iterations default_options + burn_in default_options) (fresh 0))
    as [fr s|e s|] eqn:E; [|vm_compute in E; discriminate..].
  destruct (H fr s E) as [Hrec Hred].
  exists fr, s. split; [reflexivity|]. split; [|exact Hred].
  apply Forall_forall. intros c Hin.
  apply list_elem_of_lookup in Hin as [f Hc].
  destruct (Hrec f c Hc) as (cb & _ & Hb & _). exact Hb.
Defined.

(* ===================================================================== *)
(** * Part III: further properties of the routine                         *)
(* ===================================================================== *)

(** ** Carrying a second invariant through the loops *)

Section Strengthen.
Context {World Result TimePoint Exn : Type}.

Local Abbreviation St := (Env World Result TimePoint Exn).

Variable steady_clock_now : World -> TimePoint * World.
Variable elapsed : TimePoint -> TimePoint -> duration.
Variable funs : list (World -> Result * World).
Variable check : Result -> nat -> World -> option Exn * World.
Variable opt : Options.
Variable order : list nat.

Local Abbreviation N := (nfun funs).
Local Abbreviation body' := (body steady_clock_now elapsed funs check opt order).
Local Abbreviation inner' := (inner_loop steady_clock_now elapsed funs check opt order).
Local Abbreviation outer' := (outer_loop steady_clock_now elapsed funs check opt order).
Local Abbreviation Inv' := (@Inv World Result TimePoint Exn elapsed funs opt order).

Hypothesis order_bound : Forall (fun f => (f < N)%nat) order.

(** The three ways through the body of the loop. *)
Lemma body_outcome base ph i fr s :
  in_phase opt ph i -> Inv' base ph fr s -> (oIt fr < length order)%nat ->
  exists f c fn,
    order !! oIt fr = Some f /\ output fr !! f = Some c /\ funs !! f = Some fn
    /\ ((ph = false /\ budget_exhausted opt c fr /\ body' i fr s = Done fr s)
        \/ (ph = false /\ ~ budget_exhausted opt c fr
            /\ body' i fr s
               = timed_step steady_clock_now elapsed check opt fn f c fr s)
        \/ (ph = true
            /\ body' i fr s = burn_in_step steady_clock_now elapsed fn f c fr s)).
Proof.
  intros Hph HI Hp.
  destruct (lookup_lt_is_Some_2 _ _ Hp) as [f Ho].
  assert (Hf : (f < N)%nat).
  { eapply (proj1 (Forall_forall _ _) order_bound), list_elem_of_lookup_2, Ho. }
  destruct (lookup_lt_is_Some_2 (output fr) f) as [c Hc].
  { rewrite (inv_len _ _ _ _ _ _ _ _ HI). exact Hf. }
  destruct (lookup_lt_is_Some_2 funs f Hf) as [fn Hfn].
  exists f, c, fn. repeat (split; [assumption|]).
  rewrite (body_spec _ _ _ _ _ _ i fr s f c fn Ho Hc Hfn).
  destruct ph; simpl in Hph.
  - right. right. split; [reflexivity|].
    apply Z.leb_gt in Hph. rewrite Hph. reflexivity.
  - apply Z.leb_le in Hph. rewrite Hph.
    destruct (skip_per_function opt c || skip_total opt fr) eqn:Es.
    + left. split; [reflexivity|]. split; [|reflexivity].
      apply skip_exhausted. assumption.
    + right. left. split; [reflexivity|]. split; [|reflexivity].
      intros Hex. apply skip_exhausted in Hex. congruence.
Qed.

Variable base : Frame.
Variable ph : bool.
Variable Q : Frame -> St -> Prop.
Variable TQ : Exn -> St -> Prop.

Hypothesis Q_step :
  forall i fr s,
    in_phase opt ph i -> Inv' base ph fr s -> Q fr s ->
    (oIt fr < length order)%nat ->
    post (body' i fr s) (fun fr' s' => Q (advance fr') s') TQ.

Lemma inner_loop_strengthen i n fr s :
  in_phase opt ph i -> Inv' base ph fr s -> Q fr s ->
  (oIt fr + n <= length order)%nat ->
  post (inner' n i fr s)
    (fun fr' s' => Inv' base ph fr' s' /\ Q fr' s' /\ oIt fr' = (oIt fr + n)%nat)
    TQ.
Proof.
  intros Hph. revert fr s. induction n as [|n IH]; intros fr s HI HQ Hp.
  - simpl. split; [assumption|]. split; [assumption|lia].
  - cbn [inner_loop]. unfold bind.
    pose proof (body_inv steady_clock_now elapsed funs check opt order order_bound
                  base ph i fr s Hph HI ltac:(lia)) as Hb.
    pose proof (Q_step i fr s Hph HI HQ ltac:(lia)) as Hq.
    destruct (body' i fr s) as [fr1 s1|e s1|]; simpl in Hb, Hq;
      [|exact Hq|exact Hq].
    destruct Hb as [HI1 Hp1].
    specialize (IH (advance fr1) s1 HI1 Hq). simpl in IH. rewrite Hp1 in IH.
    specialize (IH ltac:(lia)).
    destruct (inner' n i (advance fr1) s1) as [fr2 s2|e s2|]; simpl in *;
      [|exact IH|exact IH].
    destruct IH as (HI2 & HQ2 & Hp2). split; [assumption|]. split; [assumption|lia].
Qed.

Lemma outer_loop_strengthen n i fr s :
  in_phase opt ph (if ph then i + Z.of_nat n - 1 else i) ->
  Inv' base ph fr s -> Q fr s ->
  (oIt fr + n * N <= length order)%nat ->
  post (outer' n i fr s)
    (fun fr' s' => Inv' base ph fr' s' /\ Q fr' s'
                   /\ oIt fr' = (oIt fr + n * N)%nat)
    TQ.
Proof.
  revert i fr s. induction n as [|n IH]; intros i fr s Hph HI HQ Hle.
  - simpl. split; [assumption|]. split; [assumption|lia].
  - cbn [outer_loop]. unfold bind.
    assert (Hi : in_phase opt ph i) by (destruct ph; simpl in *; lia).
    pose proof (inner_loop_strengthen i N fr s Hi HI HQ ltac:(lia)) as Hin.
    destruct (inner' N i fr s) as [fr1 s1|e s1|]; simpl in Hin;
      [|exact Hin|exact Hin].
    destruct Hin as (HI1 & HQ1 & Hp1).
    assert (Hph' : in_phase opt ph (if ph then i + 1 + Z.of_nat n - 1 else i + 1))
      by (destruct ph; simpl in *; lia).
    specialize (IH (i + 1) fr1 s1 Hph' HI1 HQ1 ltac:(lia)).
    destruct (outer' n (i + 1) fr1 s1) as [fr2 s2|e s2|]; simpl in *;
      [|exact IH|exact IH].
    destruct IH as (HI2 & HQ2 & Hp2). split; [assumption|]. split; [assumption|lia].
Qed.
End Strengthen.

(** ** What one entry does to the frame and to the log *)

Section Entry.
Context {World Result TimePoint Exn : Type}.

Local Abbreviation St := (Env World Result TimePoint Exn).

Variable steady_clock_now : World -> TimePoint * World.
Variable elapsed : TimePoint -> TimePoint -> duration.
Variable funs : list (World -> Result * World).
Variable check : Result -> nat -> World -> option Exn * World.
Variable opt : Options.
Variable order : list nat.

Local Abbreviation N := (nfun funs).
Local Abbreviation b := (Z.to_nat (burn_in opt)).
Local Abbreviation body' := (body steady_clock_now elapsed funs check opt order).
Local Abbreviation Inv' := (@Inv World Result TimePoint Exn elapsed funs opt order).

Hypothesis order_bound : Forall (fun f => (f < N)%nat) order.

Lemma body_effect base ph i fr s :
  in_phase opt ph i -> Inv' base ph fr s -> (oIt fr < length order)%nat ->
  exists f c,
    order !! oIt fr = Some f /\ output fr !! f = Some c
    /\ ((ph = false /\ budget_exhausted opt c fr /\ body' i fr s = Done fr s)
        \/ (exists t1 t2 r w',
              ph = true
              /\ body' i fr s
                 = Done {| output := <[f := record_burn_in c (elapsed t1 t2)]> (output fr);
                           total_time := total_time fr;
                           oIt := oIt fr |}
                        {| world := w';
                           log := EvNow t2 :: EvCall f r :: EvNow t1 :: log s |})
        \/ (exists t1 t2 r w' x,
              ph = false /\ ~ budget_exhausted opt c fr
              /\ body' i fr s
                 = let s' := {| world := w';
                                log := EvCheck r f x :: EvNow t2 :: EvCall f r
                                       :: EvNow t1 :: log s |} in
                   match x with
                   | Some e => Thrown e s'
                   | None =>
                       Done {| output := <[f := record_timed c (elapsed t1 t2)]> (output fr);
                               total_time := match max_time_total opt with
                                             | Some _ => F64.add (total_time fr) (elapsed t1 t2)
                                             | None => total_time fr
                                             end;
                               oIt := oIt fr |} s'
                   end)).
Proof.
  intros Hph HI Hp.
  destruct (body_outcome steady_clock_now elapsed funs check opt order order_bound
              base ph i fr s Hph HI Hp)
    as (f & c & fn & Ho & Hc & Hfn & [(-> & Hex & E)|[(-> & Hex & E)|(-> & E)]]).
  - exists f, c. repeat (split; [assumption|]). left. auto.
  - exists f, c. repeat (split; [assumption|]). right. right.
    unfold timed_step, timed_call in E.
    destruct (steady_clock_now (world s)) as [t1 w1].
    destruct (fn w1) as [r w2]. destruct (steady_clock_now w2) as [t2 w3].
    simpl in E. destruct (check r f w3) as [x w4].
    exists t1, t2, r, w4, x. split; [reflexivity|]. split; [assumption|].
    rewrite E. destruct x; reflexivity.
  - exists f, c. repeat (split; [assumption|]). right. left.
    unfold burn_in_step, timed_call in E.
    destruct (steady_clock_now (world s)) as [t1 w1].
    destruct (fn w1) as [r w2]. destruct (steady_clock_now w2) as [t2 w3].
    exists t1, t2, r, w3. split; [reflexivity|]. exact E.
Qed.

(** The log keeps its shape. *)
Lemma well_formed_step base ph i fr s :
  in_phase opt ph i -> Inv' base ph fr s -> well_formed (log s) ->
  (oIt fr < length order)%nat ->
  post (body' i fr s)
    (fun _ s' => well_formed (log s')) (fun _ s' => well_formed (log s')).
Proof.
  intros Hph HI HQ Hp.
  destruct (body_effect base ph i fr s Hph HI Hp)
    as (f & c & _ & _ & [(_ & _ & E)|[(t1 & t2 & r & w' & _ & E)
                                      |(t1 & t2 & r & w' & x & _ & _ & E)]]);
    rewrite E; [exact HQ | exact HQ |].
  destruct x; simpl; auto.
Qed.

(** Every call recorded in the log has its sample. *)
Lemma calls_step base ph i fr s :
  in_phase opt ph i -> Inv' base ph fr s ->
  (forall g, count_occ Nat.eq_dec (calls (log s)) g
             = length (samples elapsed g (log s))) ->
  (oIt fr < length order)%nat ->
  post (body' i fr s)
    (fun _ s' => forall g, count_occ Nat.eq_dec (calls (log s')) g
                           = length (samples elapsed g (log s')))
    (fun _ _ => True).
Proof.
  intros Hph HI HQ Hp.
  assert (Hcall : forall (f g : nat) (d : duration),
            count_occ Nat.eq_dec (f :: calls (log s)) g
            = length (if Nat.eqb f g then samples elapsed g (log s) ++ [d]
                      else samples elapsed g (log s))).
  { intros f g d. simpl. destruct (Nat.eq_dec f g) as [->|Hne].
    - rewrite Nat.eqb_refl, length_app, HQ. simpl. lia.
    - apply Nat.eqb_neq in Hne. rewrite Hne. apply HQ. }
  destruct (body_effect base ph i fr s Hph HI Hp)
    as (f & c & _ & _ & [(_ & _ & E)|[(t1 & t2 & r & w' & _ & E)
                                      |(t1 & t2 & r & w' & x & _ & _ & E)]]);
    rewrite E.
  - exact HQ.
  - simpl. intros g. apply Hcall.
  - destruct x; simpl; [exact I|]. intros g. apply Hcall.
Qed.

Lemma checks_for_le (f : nat) (l : list (Event Result TimePoint Exn)) :
  (checks_for f l <= count_checks l)%nat.
Proof.
  induction l as [|[t|g r|r g x] l IH]; simpl; try lia.
  destruct (Nat.eqb g f); lia.
Qed.

Lemma checked_durations_none (l : list (Event Result TimePoint Exn)) :
  count_checks l = 0%nat -> checked_durations elapsed l = [].
Proof.
  induction l as [|[t|g r|r g x] l IH]; simpl; intros H; auto. discriminate.
Qed.

(** In the timed rounds [check] is called once for every sample. *)
Lemma checks_step base i fr s :
  in_phase opt false i -> Inv' base false fr s ->
  (forall g c, output fr !! g = Some c ->
               checks_for g (log s) = (length (times c) - b)%nat) ->
  (oIt fr < length order)%nat ->
  post (body' i fr s)
    (fun fr' s' => forall g c, output (advance fr') !! g = Some c ->
                     checks_for g (log s') = (length (times c) - b)%nat)
    (fun _ _ => True).
Proof.
  intros Hph HI HQ Hp.
  destruct (body_effect base false i fr s Hph HI Hp)
    as (f & c & _ & Hc & [(_ & _ & E)|[(t1 & t2 & r & w' & [=] & E)
                                      |(t1 & t2 & r & w' & x & _ & _ & E)]]);
    rewrite E; [exact HQ|].
  destruct x; simpl; [exact I|]. intros g cg Hg.
  assert (Hlt : (f < length (output fr))%nat) by (eapply lookup_lt_Some; eassumption).
  destruct (decide (f = g)) as [<-|Hne].
  - rewrite list_lookup_insert_eq in Hg by assumption. injection Hg as <-.
    rewrite Nat.eqb_refl, (HQ f c Hc). simpl. rewrite length_app. simpl.
    destruct (ri_mean_timed _ _ _ _ _ _ _ _ _ (inv_rec _ _ _ _ _ _ _ _ HI f c Hc) eq_refl)
      as [Hb _].
    lia.
  - rewrite list_lookup_insert_ne in Hg by assumption.
    apply Nat.eqb_neq in Hne. rewrite Hne. simpl. apply HQ. assumption.
Qed.

Lemma not_exhausted_below c fr :
  ~ budget_exhausted opt c fr ->
  (forall cap, max_time_per_function opt = Some cap -> F64.ltb (mean c) cap = true)
  /\ (forall cap, max_time_total opt = Some cap -> F64.ltb (total_time fr) cap = true).
Proof.
  intros Hex. split; intros cap Hcap.
  - destruct (F64.ltb (mean c) cap) eqn:E; [reflexivity|]. exfalso. apply Hex.
    left. exists cap. split; [assumption|]. unfold duration_ge. rewrite E. reflexivity.
  - destruct (F64.ltb (total_time fr) cap) eqn:E; [reflexivity|]. exfalso. apply Hex.
    right. exists cap. split; [assumption|]. unfold duration_ge. rewrite E. reflexivity.
Qed.

(** A candidate is called in a timed round only while the sum of its timed
    samples is below its budget. *)
Lemma per_function_step base i fr s :
  in_phase opt false i -> Inv' base false fr s ->
  (forall cap g c, max_time_per_function opt = Some cap -> output fr !! g = Some c ->
     drop b (times c) = []
     \/ F64.ltb (fsum (removelast (drop b (times c)))) cap = true) ->
  (oIt fr < length order)%nat ->
  post (body' i fr s)
    (fun fr' _ => forall cap g c,
       max_time_per_function opt = Some cap -> output (advance fr') !! g = Some c ->
       drop b (times c) = []
       \/ F64.ltb (fsum (removelast (drop b (times c)))) cap = true)
    (fun _ _ => True).
Proof.
  intros Hph HI HQ Hp.
  destruct (body_effect base false i fr s Hph HI Hp)
    as (f & c & _ & Hc & [(_ & _ & E)|[(t1 & t2 & r & w' & [=] & E)
                                      |(t1 & t2 & r & w' & x & _ & Hex & E)]]);
    rewrite E; [exact HQ|].
  destruct x; simpl; [exact I|]. intros cap g cg Hcap Hg.
  assert (Hlt : (f < length (output fr))%nat) by (eapply lookup_lt_Some; eassumption).
  destruct (decide (f = g)) as [<-|Hne].
  - rewrite list_lookup_insert_eq in Hg by assumption. injection Hg as <-.
    right. simpl.
    destruct (ri_mean_timed _ _ _ _ _ _ _ _ _ (inv_rec _ _ _ _ _ _ _ _ HI f c Hc) eq_refl)
      as [Hb Hm].
    rewrite drop_app_le, removelast_last, <- Hm by assumption.
    apply (proj1 (not_exhausted_below c fr Hex)). assumption.
  - rewrite list_lookup_insert_ne in Hg by assumption. eapply HQ; eassumption.
Qed.

(** A timed call is made only while the sum of the timed samples so far is
    below the total budget, and that sum is [total_time]. *)
Lemma total_step base i fr s :
  in_phase opt false i -> Inv' base false fr s ->
  (forall cap, max_time_total opt = Some cap ->
     total_time fr = fsum (checked_durations elapsed (log s))
     /\ (checked_durations elapsed (log s) = []
         \/ F64.ltb (fsum (removelast (checked_durations elapsed (log s)))) cap = true)) ->
  (oIt fr < length order)%nat ->
  post (body' i fr s)
    (fun fr' s' => forall cap, max_time_total opt = Some cap ->
       total_time (advance fr') = fsum (checked_durations elapsed (log s'))
       /\ (checked_durations elapsed (log s') = []
           \/ F64.ltb (fsum (removelast (checked_durations elapsed (log s')))) cap = true))
    (fun _ _ => True).
Proof.
  intros Hph HI HQ Hp.
  destruct (body_effect base false i fr s Hph HI Hp)
    as (f & c & _ & Hc & [(_ & _ & E)|[(t1 & t2 & r & w' & [=] & E)
                                      |(t1 & t2 & r & w' & x & _ & Hex & E)]]);
    rewrite E; [exact HQ|].
  destruct x; simpl; [exact I|]. intros cap Hcap.
  destruct (HQ cap Hcap) as [Htot _]. rewrite Hcap.
  split.
  - rewrite fsum_snoc, Htot. reflexivity.
  - right. rewrite removelast_last, <- Htot.
    apply (proj2 (not_exhausted_below c fr Hex)). assumption.
Qed.
(** The body is defined on the states of the invariant. *)
Lemma trivial_step base ph i fr s :
  in_phase opt ph i -> Inv' base ph fr s -> True ->
  (oIt fr < length order)%nat ->
  post (body' i fr s) (fun _ _ => True) (fun _ _ => True).
Proof.
  intros Hph HI _ Hp.
  pose proof (body_inv steady_clock_now elapsed funs check opt order order_bound
                base ph i fr s Hph HI Hp) as Hb.
  destruct (body' i fr s); simpl in *; auto.
Qed.
End Entry.

(** ** Loops in which every entry is skipped *)

Section Frozen.
Context {World Result TimePoint Exn : Type}.

Local Abbreviation St := (Env World Result TimePoint Exn).

Variable steady_clock_now : World -> TimePoint * World.
Variable elapsed : TimePoint -> TimePoint -> duration.
Variable funs : list (World -> Result * World).
Variable check : Result -> nat -> World -> option Exn * World.
Variable opt : Options.
Variable order : list nat.

Local Abbreviation N := (nfun funs).
Local Abbreviation body' := (body steady_clock_now elapsed funs check opt order).
Local Abbreviation inner' := (inner_loop steady_clock_now elapsed funs check opt order).
Local Abbreviation outer' := (outer_loop steady_clock_now elapsed funs check opt order).

Lemma frozen_body i fr (s : St) :
  burn_in opt <= i -> all_skipped opt fr ->
  Forall (fun f => (f < length (output fr))%nat) order ->
  (oIt fr < length order)%nat ->
  body' i fr s = Done fr s.
Proof.
  intros Hi Hskip Hbound Hp.
  destruct (lookup_lt_is_Some_2 _ _ Hp) as [f Ho].
  assert (Hf : (f < length (output fr))%nat).
  { eapply (proj1 (Forall_forall _ _) Hbound), list_elem_of_lookup_2, Ho. }
  destruct (lookup_lt_is_Some_2 _ _ Hf) as [c Hc].
  unfold body, bind. rewrite Ho. simpl. rewrite Hc. simpl.
  apply Z.leb_le in Hi. rewrite Hi. simpl.
  destruct (skip_per_function opt c) eqn:E1; [reflexivity|].
  destruct (skip_total opt fr) eqn:E2; [reflexivity|].
  destruct Hskip as [H|H]; [congruence|].
  assert (E3 : skip_per_function opt c = true).
  { apply (proj1 (Forall_forall _ _) H). eapply list_elem_of_lookup_2. eassumption. }
  congruence.
Qed.

Lemma frozen_inner i n fr (s : St) :
  burn_in opt <= i -> all_skipped opt fr ->
  Forall (fun f => (f < length (output fr))%nat) order ->
  (oIt fr + n <= length order)%nat ->
  inner' n i fr s
  = Done {| output := output fr; total_time := total_time fr;
            oIt := (oIt fr + n)%nat |} s.
Proof.
  intros Hi. revert fr. induction n as [|n IH]; intros fr Hskip Hbound Hp.
  - simpl. unfold ret. rewrite Nat.add_0_r. destruct fr; reflexivity.
  - cbn [inner_loop]. unfold bind.
    rewrite frozen_body by (assumption || lia).
    rewrite IH by (assumption || (simpl; lia)).
    simpl. do 2 f_equal. lia.
Qed.

Lemma frozen_outer i n fr (s : St) :
  burn_in opt <= i -> all_skipped opt fr ->
  Forall (fun f => (f < length (output fr))%nat) order ->
  (oIt fr + n * N <= length order)%nat ->
  outer' n i fr s
  = Done {| output := output fr; total_time := total_time fr;
            oIt := (oIt fr + n * N)%nat |} s.
Proof.
  revert i fr. induction n as [|n IH]; intros i fr Hi Hskip Hbound Hp.
  - simpl. unfold ret. rewrite Nat.add_0_r. destruct fr; reflexivity.
  - cbn [outer_loop]. unfold bind.
    rewrite frozen_inner by (assumption || lia).
    rewrite IH by (assumption || lia || (simpl; lia)).
    simpl. do 2 f_equal. lia.
Qed.

(** X5.  Once the total of the timed durations has reached
    [max_time_total], the remaining timed rounds call no candidate, read no
    clock and call no [check]: output, total, world and log stay as they
    are, and only the iterator moves to the end of these rounds. *)
Theorem total_budget_reached_skips_rest (cap : duration) (i : Z) (n : nat)
    (fr : Frame) (s : St) :
  burn_in opt <= i ->
  max_time_total opt = Some cap -> duration_ge (total_time fr) cap = true ->
  Forall (fun f => (f < length (output fr))%nat) order ->
  (oIt fr + n * N <= length order)%nat ->
  outer' n i fr s
  = Done {| output := output fr; total_time := total_time fr;
            oIt := (oIt fr + n * N)%nat |} s.
Proof.
  intros Hi Hcap Hge Hbound Hp. apply frozen_outer; try assumption.
  left. unfold skip_total. rewrite Hcap. exact Hge.
Qed.
End Frozen.

(** ** Further properties of whole runs *)

Section Further.
Context {World Result TimePoint Exn Rng : Type}.

Local Abbreviation St := (Env World Result TimePoint Exn).

Variable steady_clock_now : World -> TimePoint * World.
Variable elapsed : TimePoint -> TimePoint -> duration.
Variable mt19937_64 : Z -> Rng.
Variable std_shuffle : list nat -> Rng -> list nat * Rng.
Variable funs : list (World -> Result * World).
Variable check : Result -> nat -> World -> option Exn * World.
Variable opt : Options.

Local Abbreviation N := (nfun funs).
Local Abbreviation b := (Z.to_nat (burn_in opt)).
Local Abbreviation num := (iterations opt + burn_in opt).
Local Abbreviation order := (build_order mt19937_64 std_shuffle funs opt num).
Local Abbreviation body' := (body steady_clock_now elapsed funs check opt order).
Local Abbreviation outer' := (outer_loop steady_clock_now elapsed funs check opt order).
Local Abbreviation dispatch' := (dispatch steady_clock_now elapsed funs check opt order num).
Local Abbreviation Inv' := (@Inv World Result TimePoint Exn elapsed funs opt order).
Local Abbreviation time' :=
  (time steady_clock_now elapsed mt19937_64 std_shuffle funs check opt).

Hypothesis valid : valid_options opt = true.
Hypothesis shuffle_ok : shuffle_permutes std_shuffle.

(** An invariant [Q1] of the burn-in rounds that yields an invariant [Q2]
    of the timed rounds holds at the end of the dispatch loop. *)
Lemma dispatch_strengthen (Q1 Q2 : Frame -> St -> Prop) (TQ : Exn -> St -> Prop)
    (w : World) :
  Q1 (initial_frame funs) (fresh w) ->
  (forall base i fr s,
      in_phase opt true i -> Inv' base true fr s -> Q1 fr s ->
      (oIt fr < length order)%nat ->
      post (body' i fr s) (fun fr' s' => Q1 (advance fr') s') TQ) ->
  (forall fr s,
      Inv' (initial_frame funs) true fr s -> oIt fr = (b * N)%nat ->
      Q1 fr s -> Q2 fr s) ->
  (forall base i fr s,
      in_phase opt false i -> Inv' base false fr s -> Q2 fr s ->
      (oIt fr < length order)%nat ->
      post (body' i fr s) (fun fr' s' => Q2 (advance fr') s') TQ) ->
  post (dispatch' (fresh w)) Q2 TQ.
Proof.
  intros Hinit Hstep1 Hbound Hstep2.
  pose proof valid as Hv. apply valid_options_spec in Hv.
  pose proof (order_length mt19937_64 std_shuffle funs opt valid shuffle_ok) as Hlen.
  pose proof (build_order_bound mt19937_64 std_shuffle funs shuffle_ok opt num) as Hob.
  unfold dispatch.
  replace (Z.to_nat num) with (b + Z.to_nat (iterations opt))%nat by lia.
  rewrite outer_loop_app. unfold bind.
  pose proof (outer_loop_strengthen steady_clock_now elapsed funs check opt order Hob
                (initial_frame funs) true Q1 TQ (Hstep1 (initial_frame funs))
                b 0 (initial_frame funs) (fresh w)) as H1.
  simpl in H1. specialize (H1 ltac:(lia) (inv_initial _ _ _ _ _) Hinit).
  rewrite Hlen in H1. specialize (H1 ltac:(lia)).
  destruct (outer' b 0 (initial_frame funs) (fresh w)) as [fr_b s_b|e s'|];
    simpl in H1; [|exact H1|exact H1].
  destruct H1 as (HI & HQ1 & Hp).
  assert (HI' : Inv' fr_b false fr_b s_b).
  { apply inv_rebase with (base := initial_frame funs).
    apply inv_timed_phase; try assumption; try lia.
    apply build_order_balanced. assumption. }
  pose proof (outer_loop_strengthen steady_clock_now elapsed funs check opt order Hob
                fr_b false Q2 TQ (Hstep2 fr_b)
                (Z.to_nat (iterations opt)) (0 + Z.of_nat b) fr_b s_b) as H2.
  simpl in H2. specialize (H2 ltac:(lia) HI' (Hbound fr_b s_b HI Hp HQ1)).
  rewrite Hp, Hlen in H2. specialize (H2 ltac:(lia)).
  destruct (outer' _ _ fr_b s_b) as [fr s|e s|]; simpl in *; tauto.
Qed.

(** The frame and the environment that [time] reduces and returns. *)
Lemma time_dispatch (w : World) (out : list Timings) (s : St) :
  time' (fresh w) = Done out s ->
  exists fr_b s_b fr,
    Inv' (initial_frame funs) true fr_b s_b /\ oIt fr_b = (b * N)%nat
    /\ dispatch' (fresh w) = Done fr s
    /\ Inv' fr_b false fr s /\ oIt fr = length order
    /\ out = map (fun c => summary (drop b (times c))) (output fr).
Proof.
  intros Hdone.
  destruct (time_spec steady_clock_now elapsed mt19937_64 std_shuffle funs check opt
              valid shuffle_ok w) as (fr_b & s_b & _ & HIb & Hpb & _ & Hpost).
  rewrite Hdone in Hpost. simpl in Hpost.
  destruct Hpost as (fr & Hd & HI & Hp & Hout).
  exists fr_b, s_b, fr. auto 10.
Qed.

(** X2.  No candidate is reported with more than [iterations] samples,
    whatever the budgets. *)
Theorem at_most_iterations_samples (w : World) (out : list Timings) (s : St)
    (f : nat) (t : Timings) :
  time' (fresh w) = Done out s -> out !! f = Some t ->
  Z.of_nat (length (times t)) <= iterations opt.
Proof.
  intros Hdone Ht.
  destruct (time_dispatch w out s Hdone) as (fr_b & s_b & fr & _ & _ & _ & HI & Hp & ->).
  apply list_lookup_fmap_Some in Ht as (c & -> & Hc).
  destruct (final_record _ _ _ _ _ valid shuffle_ok _ _ _ _ _ HI Hp Hc) as (_ & Hle & _).
  rewrite summary_times, length_drop.
  pose proof valid as Hv. apply valid_options_spec in Hv. lia.
Qed.

(** X8.  Every candidate is invoked [burn_in] times plus once for each of
    its reported samples: a skipped entry invokes nothing, and every
    invocation of a timed round leaves a reported sample. *)
Theorem invocations_are_burn_in_plus_samples (w : World) (out : list Timings)
    (s : St) (f : nat) (t : Timings) :
  time' (fresh w) = Done out s -> out !! f = Some t ->
  count_occ Nat.eq_dec (call_order (log s)) f = (b + length (times t))%nat.
Proof.
  intros Hdone Ht.
  destruct (time_dispatch w out s Hdone)
    as (fr_b & s_b & fr & _ & _ & Hd & HI & Hp & ->).
  apply list_lookup_fmap_Some in Ht as (c & -> & Hc).
  assert (H : forall g, count_occ Nat.eq_dec (calls (log s)) g
                        = length (samples elapsed g (log s))).
  { pose proof (dispatch_strengthen
                  (fun _ s' => forall g, count_occ Nat.eq_dec (calls (log s')) g
                                         = length (samples elapsed g (log s')))
                  (fun _ s' => forall g, count_occ Nat.eq_dec (calls (log s')) g
                                         = length (samples elapsed g (log s')))
                  (fun _ _ => True) w) as H.
    rewrite Hd in H. cbn [post] in H. apply H.
    - intros g. reflexivity.
    - intros base i fr0 s0. apply calls_step.
      apply build_order_bound. assumption.
    - auto.
    - intros base i fr0 s0. apply calls_step.
      apply build_order_bound. assumption. }
  unfold call_order. rewrite count_occ_rev, H.
  rewrite <- (ri_samples _ _ _ _ _ _ _ _ _ (inv_rec _ _ _ _ _ _ _ _ HI f c Hc)).
  destruct (ri_mean_timed _ _ _ _ _ _ _ _ _ (inv_rec _ _ _ _ _ _ _ _ HI f c Hc) eq_refl)
    as [Hb _].
  rewrite summary_times, length_drop. lia.
Qed.

(** X9.  [check] is called on index [f] exactly once for each reported
    sample of candidate [f]. *)
Theorem one_check_per_sample (w : World) (out : list Timings) (s : St)
    (f : nat) (t : Timings) :
  time' (fresh w) = Done out s -> out !! f = Some t ->
  checks_for f (log s) = length (times t).
Proof.
  intros Hdone Ht.
  destruct (time_dispatch w out s Hdone)
    as (fr_b & s_b & fr & _ & _ & Hd & HI & Hp & ->).
  apply list_lookup_fmap_Some in Ht as (c & -> & Hc).
  assert (H : forall g c', output fr !! g = Some c' ->
                checks_for g (log s) = (length (times c') - b)%nat).
  { pose proof (dispatch_strengthen
                  (fun _ _ => True)
                  (fun fr' s' => forall g c', output fr' !! g = Some c' ->
                                   checks_for g (log s') = (length (times c') - b)%nat)
                  (fun _ _ => True) w) as H.
    rewrite Hd in H. cbn [post] in H. apply H.
    - exact I.
    - intros base i fr0 s0. apply trivial_step.
      apply build_order_bound. assumption.
    - intros fr0 s0 HI0 Hp0 _ g c' Hc'.
      destruct (burn_in_record _ _ _ _ _ valid shuffle_ok fr0 s0 g c' HI0 Hp0 Hc')
        as (Hlen & _).
      pose proof (checks_for_le g (log s0)) as Hle.
      rewrite (inv_nochecks _ _ _ _ _ _ _ _ HI0 eq_refl) in Hle. lia.
    - intros base i fr0 s0. apply checks_step.
      apply build_order_bound. assumption. }
  rewrite summary_times, length_drop. apply H. assumption.
Qed.
(** X10.  The log of a run, whether it returns or leaves with an
    exception, is a sequence of candidate calls, each between two readings
    of the clock and followed by at most one call of [check]; that call of
    [check] comes after the second reading and is on the result of the call
    and the index of the candidate. *)
Theorem log_is_well_formed (w : World) :
  match time' (fresh w) with
  | Done _ s => well_formed (log s)
  | Thrown _ s => well_formed (log s)
  | Undefined => False
  end.
Proof.
  pose proof (dispatch_strengthen
                (fun _ s' => well_formed (log s'))
                (fun _ s' => well_formed (log s'))
                (fun _ s' => well_formed (log s')) w) as H.
  assert (Hd : post (dispatch' (fresh w))
                 (fun _ s' => well_formed (log s'))
                 (fun _ s' => well_formed (log s'))).
  { apply H.
    - exact I.
    - intros base i fr0 s0. apply well_formed_step.
      apply build_order_bound. assumption.
    - auto.
    - intros base i fr0 s0. apply well_formed_step.
      apply build_order_bound. assumption. }
  destruct (time_spec steady_clock_now elapsed mt19937_64 std_shuffle funs check opt
              valid shuffle_ok w) as (fr_b & s_b & _ & _ & _ & _ & Hpost).
  rewrite time_eq in Hpost |- * by assumption.
  destruct (dispatch' (fresh w)) as [fr s|e s|]; cbn [post] in Hd.
  - destruct (reduce opt (output fr)); [exact Hd | exact Hpost].
  - exact Hd.
  - exact Hd.
Qed.

(** X11.  With [max_time_per_function] set, the reported samples of a
    candidate without the last one sum to less than the budget: a candidate
    is called at most once after its accumulated time has reached it. *)
Theorem per_function_budget_overshoot (w : World) (out : list Timings) (s : St)
    (f : nat) (t : Timings) (cap : duration) :
  time' (fresh w) = Done out s -> out !! f = Some t ->
  max_time_per_function opt = Some cap ->
  times t = [] \/ F64.ltb (fsum (removelast (times t))) cap = true.
Proof.
  intros Hdone Ht Hcap.
  destruct (time_dispatch w out s Hdone)
    as (fr_b & s_b & fr & _ & _ & Hd & HI & Hp & ->).
  apply list_lookup_fmap_Some in Ht as (c & -> & Hc).
  pose proof (dispatch_strengthen
                (fun _ _ => True)
                (fun fr' _ => forall cap g c',
                   max_time_per_function opt = Some cap -> output fr' !! g = Some c' ->
                   drop b (times c') = []
                   \/ F64.ltb (fsum (removelast (drop b (times c')))) cap = true)
                (fun _ _ => True) w) as H.
  rewrite Hd in H. cbn [post] in H.
  rewrite summary_times. apply H with (g := f); try assumption.
  - exact I.
  - intros base i fr0 s0. apply trivial_step.
    apply build_order_bound. assumption.
  - intros fr0 s0 HI0 Hp0 _ cap' g c' _ Hc'. left.
    destruct (burn_in_record _ _ _ _ _ valid shuffle_ok fr0 s0 g c' HI0 Hp0 Hc')
      as (Hlen & _).
    apply drop_ge. lia.
  - intros base i fr0 s0. apply per_function_step.
    apply build_order_bound. assumption.
Qed.

(** X12.  With [max_time_total] set, the durations of the timed calls of
    a run without the last one sum to less than the budget: at most one
    timed call is made after the total has reached it. *)
Theorem total_budget_overshoot (w : World) (out : list Timings) (s : St)
    (cap : duration) :
  time' (fresh w) = Done out s -> max_time_total opt = Some cap ->
  checked_durations elapsed (log s) = []
  \/ F64.ltb (fsum (removelast (checked_durations elapsed (log s)))) cap = true.
Proof.
  intros Hdone Hcap.
  destruct (time_dispatch w out s Hdone)
    as (fr_b & s_b & fr & _ & _ & Hd & HI & Hp & ->).
  pose proof (dispatch_strengthen
                (fun _ _ => True)
                (fun fr' s' => forall cap, max_time_total opt = Some cap ->
                   total_time fr' = fsum (checked_durations elapsed (log s'))
                   /\ (checked_durations elapsed (log s') = []
                       \/ F64.ltb (fsum (removelast (checked_durations elapsed (log s'))))
                            cap = true))
                (fun _ _ => True) w) as H.
  rewrite Hd in H. cbn [post] in H.
  apply H; try assumption.
  - exact I.
  - intros base i fr0 s0. apply trivial_step.
    apply build_order_bound. assumption.
  - intros fr0 s0 HI0 Hp0 _ cap' _.
    rewrite (checked_durations_none elapsed (log s0))
      by (apply (inv_nochecks _ _ _ _ _ _ _ _ HI0); reflexivity).
    split; [|left; reflexivity].
    apply (inv_total _ _ _ _ _ _ _ _ HI0). reflexivity.
  - intros base i fr0 s0. apply total_step.
    apply build_order_bound. assumption.
Qed.

Lemma map_constant {A B : Type} (g : A -> B) (v : B) (l : list A) :
  Forall (fun x => g x = v) l -> map g l = replicate (length l) v.
Proof.
  induction 1 as [|x l Hx _ IH]; simpl; [reflexivity|]. rewrite Hx, IH. reflexivity.
Qed.

(** A run whose timed rounds leave the records of the burn-in rounds as
    they are returns one empty record per candidate. *)
Lemma run_without_timed_calls (w : World) (fr_b fr : Frame) (s_b : St) :
  Inv' (initial_frame funs) true fr_b s_b -> oIt fr_b = (b * N)%nat ->
  dispatch' (fresh w) = Done fr s_b -> output fr = output fr_b ->
  time' (fresh w) = Done (replicate N empty_timings) s_b
  /\ count_checks (log s_b) = 0%nat
  /\ forall f, (f < N)%nat -> count_occ Nat.eq_dec (call_order (log s_b)) f = b.
Proof.
  intros HIb Hpb Hd Hout.
  pose proof valid as Hv. apply valid_options_spec in Hv.
  assert (Hrec : forall f c, output fr_b !! f = Some c ->
            reduce_one opt c = Some (summary (drop b (times c)))
            /\ summary (drop b (times c)) = empty_timings).
  { intros f c Hc.
    destruct (burn_in_record _ _ _ _ _ valid shuffle_ok fr_b s_b f c HIb Hpb Hc)
      as (Hlen & _ & Hm & Hsd).
    split.
    - apply reduce_one_summary; try assumption; try lia.
      rewrite Hm, drop_ge by lia. reflexivity.
    - rewrite drop_ge by lia. reflexivity. }
  split; [|split].
  - rewrite time_eq, Hd, Hout by assumption.
    rewrite (reduce_summary opt (output fr_b)).
    + rewrite (map_constant _ empty_timings), (inv_len _ _ _ _ _ _ _ _ HIb).
      * reflexivity.
      * apply Forall_forall. intros c Hin.
        apply list_elem_of_lookup in Hin as [f Hc]. apply (Hrec f c Hc).
    + apply Forall_forall. intros c Hin.
      apply list_elem_of_lookup in Hin as [f Hc]. apply (Hrec f c Hc).
  - apply (inv_nochecks _ _ _ _ _ _ _ _ HIb). reflexivity.
  - intros f Hf.
    rewrite (inv_calls_eq _ _ _ _ _ _ _ _ HIb) by (right; reflexivity).
    rewrite Hpb. apply (build_order_balanced _ _ _ shuffle_ok); [|assumption].
    rewrite (order_length mt19937_64 std_shuffle funs opt valid shuffle_ok). lia.
Qed.

(** X6.  With [iterations = 0] the run makes the burn-in calls only: it
    returns one default record per candidate, [check] is never called, and
    every candidate has been called [burn_in] times. *)
Theorem zero_iterations_run (w : World) :
  iterations opt = 0 ->
  exists s,
    time' (fresh w) = Done (replicate N empty_timings) s
    /\ count_checks (log s) = 0%nat
    /\ forall f, (f < N)%nat -> count_occ Nat.eq_dec (call_order (log s)) f = b.
Proof.
  intros Hit.
  destruct (dispatch_phases steady_clock_now elapsed mt19937_64 std_shuffle funs check
              opt valid shuffle_ok w) as (fr_b & s_b & _ & HIb & Hpb & Hd & _).
  exists s_b. apply (run_without_timed_calls w fr_b fr_b s_b); try assumption.
  - rewrite Hd, Hit. reflexivity.
  - reflexivity.
Qed.

(** X7.  With a budget that the zero duration already reaches (such as
    a budget of zero seconds), no timed call is made: the run returns one
    default record per candidate after the burn-in calls, and [check] is
    never called. *)
Theorem zero_budget_run (w : World) :
  (exists cap, max_time_total opt = Some cap /\ duration_ge F64.zero cap = true)
  \/ (exists cap, max_time_per_function opt = Some cap
                  /\ duration_ge F64.zero cap = true) ->
  exists s,
    time' (fresh w) = Done (replicate N empty_timings) s
    /\ count_checks (log s) = 0%nat
    /\ forall f, (f < N)%nat -> count_occ Nat.eq_dec (call_order (log s)) f = b.
Proof.
  intros Hcap. pose proof valid as Hv. apply valid_options_spec in Hv.
  destruct (dispatch_phases steady_clock_now elapsed mt19937_64 std_shuffle funs check
              opt valid shuffle_ok w) as (fr_b & s_b & _ & HIb & Hpb & Hd & _).
  assert (Hskip : all_skipped opt fr_b).
  { destruct Hcap as [(cap & E & Hge)|(cap & E & Hge)].
    - left. unfold skip_total.
      rewrite E, (inv_total _ _ _ _ _ _ _ _ HIb) by reflexivity. exact Hge.
    - right. apply Forall_forall. intros c Hin.
      apply list_elem_of_lookup in Hin as [f Hc].
      destruct (burn_in_record _ _ _ _ _ valid shuffle_ok fr_b s_b f c HIb Hpb Hc)
        as (_ & _ & Hm & _).
      unfold skip_per_function. rewrite E, Hm. exact Hge. }
  rewrite (frozen_outer steady_clock_now elapsed funs check opt order) in Hd;
    try assumption; try lia.
  - exists s_b. eapply run_without_timed_calls; try eassumption. reflexivity.
  - rewrite (inv_len _ _ _ _ _ _ _ _ HIb). apply build_order_bound. assumption.
  - rewrite Hpb, (order_length mt19937_64 std_shuffle funs opt valid shuffle_ok). lia.
Qed.
End Further.

(** ** Options outside the data model *)

Section Invalid.
Context {World Result TimePoint Exn Rng : Type}.

Local Abbreviation St := (Env World Result TimePoint Exn).

Variable steady_clock_now : World -> TimePoint * World.
Variable elapsed : TimePoint -> TimePoint -> duration.
Variable mt19937_64 : Z -> Rng.
Variable std_shuffle : list nat -> Rng -> list nat * Rng.
Variable funs : list (World -> Result * World).
Variable check : Result -> nat -> World -> option Exn * World.
Variable opt : Options.

Local Abbreviation N := (nfun funs).
Local Abbreviation num := (iterations opt + burn_in opt).
Local Abbreviation order := (build_order mt19937_64 std_shuffle funs opt num).
Local Abbreviation outer' := (outer_loop steady_clock_now elapsed funs check opt order).
Local Abbreviation Inv' := (@Inv World Result TimePoint Exn elapsed funs opt order).
Local Abbreviation time' :=
  (time steady_clock_now elapsed mt19937_64 std_shuffle funs check opt).

Lemma inv_initial_timed (w : World) :
  burn_in opt <= 0 ->
  Inv' (initial_frame funs) false (initial_frame funs) (fresh w).
Proof.
  intros Hb.
  destruct (@inv_initial World Result TimePoint Exn elapsed funs opt order w)
    as [Hlen Hpass Hnc Htot Hcalls Hceq Hrec].
  constructor; try assumption; try discriminate.
  - intros _. apply Hceq. right. reflexivity.
  - intros g c Hg. destruct (Hrec g c Hg) as [R1 R2 R3 R4 R5 R6 R7].
    constructor; try assumption; try discriminate.
    + intros _. apply R4. right. reflexivity.
    + intros _. replace (Z.to_nat (burn_in opt)) with 0%nat by lia.
      split; [lia|]. rewrite (R5 eq_refl).
      apply lookup_replicate in Hg as [-> _]. reflexivity.
Qed.

Lemma reduce_first_undefined (c : Timings) (rest : list Timings) :
  erase_burn_in opt (times c) = None -> reduce opt (c :: rest) = None.
Proof. intros H. simpl. unfold reduce_one. rewrite H. reflexivity. Qed.

Hypothesis shuffle_ok : shuffle_permutes std_shuffle.

(** X3.  With a negative [iterations], a positive [burn_in] and
    [0 <= iterations + burn_in], fewer
    rounds than [burn_in] are run, so every record holds fewer than
    [burn_in] samples and the erasure of the first [burn_in] samples leaves
    the vector: the routine has no defined result. *)
Theorem too_few_rounds_undefined (w : World) :
  0 <= num -> in_int num = true ->
  iterations opt < 0 -> 0 < burn_in opt -> funs <> [] ->
  time' (fresh w) = Undefined.
Proof.
  intros Hnum Hin Hit Hb Hne.
  assert (HN : (0 < N)%nat).
  { unfold nfun. destruct funs; [contradiction | simpl; lia]. }
  pose proof (build_order_length mt19937_64 std_shuffle funs shuffle_ok opt num) as Hlen.
  pose proof (build_order_bound mt19937_64 std_shuffle funs shuffle_ok opt num) as Hob.
  unfold time, int_add. rewrite Hin. unfold bind, dispatch.
  pose proof (outer_loop_inv steady_clock_now elapsed funs check opt order Hob
                (initial_frame funs) true (Z.to_nat num) 0 (initial_frame funs)
                (fresh w)) as H.
  simpl in H. specialize (H ltac:(lia) (inv_initial _ _ _ _ _)).
  rewrite Hlen in H. specialize (H ltac:(lia)).
  destruct (outer' (Z.to_nat num) 0 (initial_frame funs) (fresh w)) as [fr s|e s|];
    simpl in H.
  - destruct H as [HI Hp].
    destruct (output fr) as [|c rest] eqn:Eout.
    { pose proof (inv_len _ _ _ _ _ _ _ _ HI) as Hl. rewrite Eout in Hl.
      simpl in Hl. lia. }
    assert (Hc : output fr !! 0%nat = Some c) by (rewrite Eout; reflexivity).
    destruct (inv_rec _ _ _ _ _ _ _ _ HI 0%nat c Hc) as [R1 R2 R3 R4 R5 R6 R7].
    rewrite Hp, <- Hlen, take_ge in R4 by lia.
    rewrite (build_order_count _ _ _ shuffle_ok _ _ _ HN) in R4.
    rewrite reduce_first_undefined; [reflexivity|].
    unfold erase_burn_in. rewrite (R4 (or_intror eq_refl)).
    destruct (0 <=? burn_in opt); [|reflexivity].
    destruct (burn_in opt <=? Z.of_nat (Z.to_nat num)) eqn:E; [|reflexivity].
    apply Z.leb_le in E. lia.
  - destruct H as [_ H]. discriminate.
  - contradiction.
Qed.

(** X4.  With a negative [burn_in] and [0 <= iterations + burn_in] every
    round is a timed round, and the erasure is then given an end before the
    beginning of the vector, which is undefined behaviour: the run has no
    defined result unless it has left before with the exception of
    [check]. *)
Theorem negative_burn_in_no_result (w : World) :
  0 <= num -> burn_in opt < 0 -> funs <> [] ->
  match time' (fresh w) with
  | Done _ _ => False
  | Thrown e s => thrown_by_check check e s
  | Undefined => True
  end.
Proof.
  intros Hnum Hb Hne.
  assert (HN : (0 < N)%nat).
  { unfold nfun. destruct funs; [contradiction | simpl; lia]. }
  pose proof (build_order_length mt19937_64 std_shuffle funs shuffle_ok opt num) as Hlen.
  pose proof (build_order_bound mt19937_64 std_shuffle funs shuffle_ok opt num) as Hob.
  unfold time. destruct (int_add (iterations opt) (burn_in opt)) as [n|] eqn:En;
    [|exact I].
  assert (n = num) as ->.
  { unfold int_add in En. destruct (in_int _); congruence. }
  unfold bind, dispatch.
  pose proof (outer_loop_inv steady_clock_now elapsed funs check opt order Hob
                (initial_frame funs) false (Z.to_nat num) 0 (initial_frame funs)
                (fresh w)) as H.
  simpl in H. specialize (H ltac:(lia) (inv_initial_timed w ltac:(lia))).
  rewrite Hlen in H. specialize (H ltac:(lia)).
  destruct (outer' (Z.to_nat num) 0 (initial_frame funs) (fresh w)) as [fr s|e s|];
    simpl in H.
  - destruct H as [HI Hp].
    destruct (output fr) as [|c rest] eqn:Eout.
    { pose proof (inv_len _ _ _ _ _ _ _ _ HI) as Hl. rewrite Eout in Hl.
      simpl in Hl. lia. }
    rewrite reduce_first_undefined; [exact I|].
    unfold erase_burn_in.
    destruct (0 <=? burn_in opt) eqn:E; [|reflexivity].
    apply Z.leb_le in E. lia.
  - apply H.
  - contradiction.
Qed.
End Invalid.

(** ** The further properties on the concrete instance *)

Lemma dispatch_reaches_end_witness :
  exists fr s,
    dispatch Sample.steady_clock_now Sample.elapsed Sample.funs Sample.check
      (Sample.cap_total 40) (Sample.order_of (Sample.cap_total 40))
      (iterations (Sample.cap_total 40) + burn_in (Sample.cap_total 40)) (fresh 0)
    = Done fr s
    /\ oIt fr = length (Sample.order_of (Sample.cap_total 40)).
Proof.
  destruct (dispatch Sample.steady_clock_now Sample.elapsed Sample.funs Sample.check
              (Sample.cap_total 40) (Sample.order_of (Sample.cap_total 40))
              (iterations (Sample.cap_total 40) + burn_in (Sample.cap_total 40))
              (fresh 0)) as [fr s|e s|] eqn:E; [|vm_compute in E; discriminate..].
  exists fr, s. split; [reflexivity|].
  exact (dispatch_reaches_end Sample.steady_clock_now Sample.elapsed Sample.seed_rng
           Sample.shuffle Sample.funs Sample.check (Sample.cap_total 40)
           eq_refl sample_shuffle_permutes 0 fr s E).
Defined.

Lemma at_most_iterations_samples_witness :
  exists out s t,
    Sample.run Sample.funs (Sample.cap_per_function 45) = Done out s
    /\ out !! 0%nat = Some t
    /\ Z.of_nat (length (times t)) <= 10.
Proof.
  destruct (Sample.run Sample.funs (Sample.cap_per_function 45)) as [out s|e s|] eqn:E;
    [|vm_compute in E; discriminate..].
  evaluate_run E out s.
  eexists _, _, _. split; [reflexivity|]. split; [reflexivity|].
  exact (at_most_iterations_samples Sample.steady_clock_now Sample.elapsed
           Sample.seed_rng Sample.shuffle Sample.funs Sample.check
           (Sample.cap_per_function 45) eq_refl sample_shuffle_permutes
           0 _ _ 0%nat _ E eq_refl).
Defined.

Lemma too_few_rounds_undefined_witness :
  Sample.run Sample.funs (Sample.with_rounds (-1) 2) = Undefined.
Proof.
  assert (H0 : 0 <= iterations (Sample.with_rounds (-1) 2)
                    + burn_in (Sample.with_rounds (-1) 2)) by (simpl; lia).
  assert (H1 : iterations (Sample.with_rounds (-1) 2) < 0) by (simpl; lia).
  assert (H2 : 0 < burn_in (Sample.with_rounds (-1) 2)) by (simpl; lia).
  assert (H3 : Sample.funs <> []) by discriminate.
  exact (too_few_rounds_undefined Sample.steady_clock_now Sample.elapsed Sample.seed_rng
           Sample.shuffle Sample.funs Sample.check (Sample.with_rounds (-1) 2)
           sample_shuffle_permutes 0 H0 eq_refl H1 H2 H3).
Defined.

Lemma negative_burn_in_no_result_witness :
  Sample.run Sample.funs (Sample.with_rounds 3 (-1)) = Undefined.
Proof.
  assert (H0 : 0 <= iterations (Sample.with_rounds 3 (-1))
                    + burn_in (Sample.with_rounds 3 (-1))) by (simpl; lia).
  assert (H1 : burn_in (Sample.with_rounds 3 (-1)) < 0) by (simpl; lia).
  assert (H2 : Sample.funs <> []) by discriminate.
  pose proof (negative_burn_in_no_result Sample.steady_clock_now Sample.elapsed
                Sample.seed_rng Sample.shuffle Sample.funs Sample.check
                (Sample.with_rounds 3 (-1)) sample_shuffle_permutes 0 H0 H1 H2) as H.
  revert H.
  match goal with
  | |- match ?run with _ => _ end -> _ => destruct run as [out s|e s|] eqn:E
  end; intros H.
  - contradiction.
  - vm_compute in E. discriminate.
  - exact E.
Defined.

Lemma total_budget_reached_skips_rest_witness :
  let fr := {| output := [empty_timings; empty_timings; empty_timings];
               total_time := Sample.milliseconds 50; oIt := 0 |} in
  outer_loop Sample.steady_clock_now Sample.elapsed Sample.funs Sample.check
    (Sample.cap_total 40) [2; 0; 1; 1; 2; 0]%nat 2 1 fr (fresh 0)
  = Done {| output := output fr; total_time := total_time fr; oIt := 6 |} (fresh 0).
Proof.
  intros fr.
  assert (H1 : burn_in (Sample.cap_total 40) <= 1) by (simpl; lia).
  assert (H2 : duration_ge (total_time fr) (Sample.milliseconds 40) = true)
    by (vm_compute; reflexivity).
  assert (H3 : Forall (fun f => (f < length (output fr))%nat) [2; 0; 1; 1; 2; 0]%nat)
    by (repeat constructor).
  assert (H4 : (oIt fr + 2 * nfun Sample.funs <= length [2; 0; 1; 1; 2; 0]%nat)%nat)
    by (simpl; lia).
  exact (total_budget_reached_skips_rest Sample.steady_clock_now Sample.elapsed
           Sample.funs Sample.check (Sample.cap_total 40) [2; 0; 1; 1; 2; 0]%nat
           (Sample.milliseconds 40) 1 2%nat fr (fresh 0) H1 eq_refl H2 H3 H4).
Defined.

Lemma zero_iterations_run_witness :
  exists s,
    Sample.run Sample.funs (Sample.with_rounds 0 2)
    = Done (replicate 3 empty_timings) s
    /\ count_checks (log s) = 0%nat.
Proof.
  destruct (zero_iterations_run Sample.steady_clock_now Sample.elapsed Sample.seed_rng
              Sample.shuffle Sample.funs Sample.check (Sample.with_rounds 0 2)
              eq_refl sample_shuffle_permutes 0 eq_refl) as (s & H1 & H2 & _).
  exists s. split; [exact H1 | exact H2].
Defined.

Lemma zero_budget_run_witness :
  exists s,
    Sample.run Sample.funs (Sample.cap_per_function 0)
    = Done (replicate 3 empty_timings) s
    /\ count_checks (log s) = 0%nat.
Proof.
  assert (Hcap : (exists cap, max_time_total (Sample.cap_per_function 0) = Some cap
                              /\ duration_ge F64.zero cap = true)
                 \/ (exists cap, max_time_per_function (Sample.cap_per_function 0) = Some cap
                                 /\ duration_ge F64.zero cap = true)).
  { right. exists (Sample.milliseconds 0). split; [reflexivity|].
    vm_compute. reflexivity. }
  destruct (zero_budget_run Sample.steady_clock_now Sample.elapsed Sample.seed_rng
              Sample.shuffle Sample.funs Sample.check (Sample.cap_per_function 0)
              eq_refl sample_shuffle_permutes 0 Hcap) as (s & H1 & H2 & _).
  exists s. split; [exact H1 | exact H2].
Defined.

Lemma invocations_are_burn_in_plus_samples_witness :
  exists out s t,
    Sample.run Sample.funs (Sample.cap_per_function 45) = Done out s
    /\ out !! 1%nat = Some t
    /\ count_occ Nat.eq_dec (call_order (log s)) 1%nat = (1 + length (times t))%nat.
Proof.
  destruct (Sample.run Sample.funs (Sample.cap_per_function 45)) as [out s|e s|] eqn:E;
    [|vm_compute in E; discriminate..].
  pose proof (invocations_are_burn_in_plus_samples Sample.steady_clock_now
                Sample.elapsed Sample.seed_rng Sample.shuffle Sample.funs Sample.check
                (Sample.cap_per_function 45) eq_refl sample_shuffle_permutes
                0 out s 1%nat) as H.
  specialize (fun t => H t E).
  evaluate_run E out s.
  eexists _, _, _. split; [reflexivity|]. split; [reflexivity|].
  exact (H _ eq_refl).
Defined.

Lemma one_check_per_sample_witness :
  exists out s t,
    Sample.run Sample.funs (Sample.cap_per_function 45) = Done out s
    /\ out !! 2%nat = Some t
    /\ checks_for 2 (log s) = length (times t).
Proof.
  destruct (Sample.run Sample.funs (Sample.cap_per_function 45)) as [out s|e s|] eqn:E;
    [|vm_compute in E; discriminate..].
  pose proof (one_check_per_sample Sample.steady_clock_now
                Sample.elapsed Sample.seed_rng Sample.shuffle Sample.funs Sample.check
                (Sample.cap_per_function 45) eq_refl sample_shuffle_permutes
                0 out s 2%nat) as H.
  specialize (fun t => H t E).
  evaluate_run E out s.
  eexists _, _, _. split; [reflexivity|]. split; [reflexivity|].
  exact (H _ eq_refl).
Defined.

Lemma log_is_well_formed_witness :
  exists e s,
    Sample.run Sample.wrong_funs (Sample.with_rounds 2 1) = Thrown e s
    /\ well_formed (log s).
Proof.
  pose proof (log_is_well_formed Sample.steady_clock_now Sample.elapsed
                Sample.seed_rng Sample.shuffle Sample.wrong_funs Sample.check
                (Sample.with_rounds 2 1) eq_refl sample_shuffle_permutes 0) as H.
  revert H.
  match goal with
  | |- match ?run with _ => _ end -> _ => destruct run as [out s|e s|] eqn:E
  end; intros H.
  - vm_compute in E. discriminate.
  - exists e, s. split; [exact E | exact H].
  - contradiction.
Defined.

Lemma per_function_budget_overshoot_witness :
  exists out s t,
    Sample.run Sample.funs (Sample.cap_per_function 45) = Done out s
    /\ out !! 0%nat = Some t
    /\ length (times t) = 5%nat
    /\ F64.ltb (fsum (removelast (times t))) (Sample.milliseconds 45) = true.
Proof.
  destruct (Sample.run Sample.funs (Sample.cap_per_function 45)) as [out s|e s|] eqn:E;
    [|vm_compute in E; discriminate..].
  pose proof (per_function_budget_overshoot Sample.steady_clock_now
                Sample.elapsed Sample.seed_rng Sample.shuffle Sample.funs Sample.check
                (Sample.cap_per_function 45) eq_refl sample_shuffle_permutes
                0 out s 0%nat) as H.
  specialize (fun t => H t (Sample.milliseconds 45) E).
  evaluate_run E out s.
  eexists _, _, _. split; [reflexivity|]. split; [reflexivity|]. split; [reflexivity|].
  destruct (H _ eq_refl eq_refl) as [Hnil|Hlt]; [discriminate Hnil | exact Hlt].
Defined.

Lemma total_budget_overshoot_witness :
  exists out s,
    Sample.run Sample.funs (Sample.cap_total 40) = Done out s
    /\ length (checked_durations Sample.elapsed (log s)) = 2%nat
    /\ F64.ltb (fsum (removelast (checked_durations Sample.elapsed (log s))))
         (Sample.milliseconds 40) = true.
Proof.
  destruct (Sample.run Sample.funs (Sample.cap_total 40)) as [out s|e s|] eqn:E;
    [|vm_compute in E; discriminate..].
  pose proof (total_budget_overshoot Sample.steady_clock_now
                Sample.elapsed Sample.seed_rng Sample.shuffle Sample.funs Sample.check
                (Sample.cap_total 40) eq_refl sample_shuffle_permutes
                0 out s (Sample.milliseconds 40) E eq_refl) as H.
  evaluate_run E out s.
  eexists _, _. split; [reflexivity|]. split; [vm_compute; reflexivity|].
  destruct H as [Hnil|Hlt]; [vm_compute in Hnil; discriminate Hnil | exact Hlt].
Defined.
